(** * Oclgrind race detector: shallow embedding of [src/plugins/RaceDetector.cpp]

    The plugin keeps one shadow [State] per byte of every non-private
    allocation and is driven by the interpreter through memory and
    synchronisation callbacks.  Each callback is embedded as a function on an
    explicit detector value; diagnostics sent to the context are returned as a
    list of structured messages.  Callbacks that dereference shadow cells
    return [option]: [None] stands for undefined behaviour of the C++ code
    (a cell outside the shadow array, a read past the store buffer, a null
    kernel invocation, a division by zero). *)

From stdpp Require Import base option list gmap fin_maps.
From Stdlib Require Import NArith Lia.

Local Open Scope N_scope.

(** ** Machine integers and addresses *)

(** [size_t] is a 64-bit unsigned integer, kept as an [N] below [2^64]. *)
Definition SIZE_BITS : N := 64.
Definition size_t_wrap (n : N) : N := n mod 2 ^ SIZE_BITS.
Definition size_t_add (a b : N) : N := size_t_wrap (a + b).

(** The sentinel written [-1] in the source, converted to [size_t]. *)
Definition MINUS_ONE : N := 2 ^ SIZE_BITS - 1.

(** Modelled from the spec: the macros [EXTRACT_BUFFER] and [EXTRACT_OFFSET]
    live in core/common.h, which is not part of the sources at hand.  The spec
    describes a fixed bit split of the 64-bit address, the top 16 bits being
    the buffer id and the bottom 48 bits the byte offset. *)
Definition NUM_BUFFER_BITS : N := 16.
Definition NUM_ADDRESS_BITS : N := SIZE_BITS - NUM_BUFFER_BITS.
Definition EXTRACT_BUFFER (address : N) : N := N.shiftr address NUM_ADDRESS_BITS.
Definition EXTRACT_OFFSET (address : N) : N := N.land address (N.ones NUM_ADDRESS_BITS).

(** The barrier flags of the OpenCL C headers (cl.h is not part of the
    sources at hand): two distinct bits. *)
Definition CLK_LOCAL_MEM_FENCE : N := 1.
Definition CLK_GLOBAL_MEM_FENCE : N := 2.

(** ** The interpreter's objects, as far as the detector looks at them *)

Inductive AddressSpace : Set :=
  | AddrSpacePrivate
  | AddrSpaceGlobal
  | AddrSpaceConstant
  | AddrSpaceLocal.

Global Instance AddressSpace_eq_dec : EqDecision AddressSpace.
Proof. solve_decision. Defined.

Module Size3.
Record t : Set := mk { x : N; y : N; z : N }.

(** Modelled from the spec: the constructor [Size3(linear, dimensions)] is
    declared in core/common.h, which is not part of the sources at hand.
    The spec calls it the standard row-major decomposition of a linear
    index over the given dimensions. *)
Definition of_linear (linear : N) (dimensions : t) : t :=
  {| x := linear mod x dimensions;
     y := (linear / x dimensions) mod y dimensions;
     z := linear / (x dimensions * y dimensions) |}.
End Size3.

(** [const llvm::Instruction*]: an opaque handle, [None] for the null pointer. *)
Definition Instruction : Set := option N.

(** [Memory]: the object identity (the detector keys its map on the pointer),
    the address space, and [getPointer], which gives for an address the host
    bytes found from there on. *)
Record Memory : Type := {
  mem_id : N;
  getAddressSpace : AddressSpace;
  getPointer : N → N → N
}.

Record WorkGroup : Type := {
  getGroupIndex : N;
  getLocalMemory : Memory
}.

Record WorkItem : Type := {
  getGlobalIndex : N;
  getWorkGroup : WorkGroup;
  getCurrentInstruction : Instruction
}.

Record KernelInvocation : Set := {
  getGlobalSize : Size3.t;
  getLocalSize : Size3.t;
  getNumGroups : Size3.t
}.

Record Context : Type := {
  getGlobalMemory : Memory
}.

(** The atomic operation is handed to [memoryAtomic] but never looked at. *)
Inductive AtomicOp : Set :=
  | AtomicAdd | AtomicAnd | AtomicCmpXchg | AtomicDec | AtomicInc | AtomicMax
  | AtomicMin | AtomicOr | AtomicSub | AtomicXchg | AtomicXor.

(** ** Shadow state *)

Record State : Set := {
  instruction : Instruction;
  workItem : N;
  workGroup : N;
  canAtomic : bool;
  canRead : bool;
  canWrite : bool;
  wasWorkItem : bool
}.

(** [RaceDetector::State::State()] *)
Definition State_ctor : State :=
  {| instruction := None;
     workItem := MINUS_ONE;
     workGroup := MINUS_ONE;
     canAtomic := true;
     canRead := true;
     canWrite := true;
     wasWorkItem := false |}.

Global Instance State_eq_dec : EqDecision State.
Proof. solve_decision. Defined.

(** A value [pair<State*, size_t>] of the state map is the array of its
    [size] cells.  The pair [(NULL, 0)] that [operator[]] creates for a key
    that is not there has no cell at all and is the empty list. *)
Abbreviation StateMap := (gmap (N * N) (list State)).

Definition KEY (memory : Memory) (address : N) : N * N :=
  (mem_id memory, EXTRACT_BUFFER address).

(** [m_state[key]]: a key that is absent is inserted with the default value. *)
Definition StateMap_index (m : StateMap) (key : N * N) : list State * StateMap :=
  match m !! key with
  | Some cells => (cells, m)
  | None => ([], <[key := []]> m)
  end.

Record RaceDetector : Type := {
  m_context : Context;
  m_kernelInvocation : option KernelInvocation;
  m_allowUniformWrites : bool;
  m_state : StateMap
}.

Definition with_state (d : RaceDetector) (m : StateMap) : RaceDetector :=
  {| m_context := m_context d;
     m_kernelInvocation := m_kernelInvocation d;
     m_allowUniformWrites := m_allowUniformWrites d;
     m_state := m |}.

Definition with_kernelInvocation (d : RaceDetector) (k : option KernelInvocation)
  : RaceDetector :=
  {| m_context := m_context d;
     m_kernelInvocation := k;
     m_allowUniformWrites := m_allowUniformWrites d;
     m_state := m_state d |}.

(** ** Diagnostics *)

Inductive DataRaceType : Set := ReadWriteRace | WriteWriteRace.

Global Instance DataRaceType_eq_dec : EqDecision DataRaceType.
Proof. solve_decision. Defined.

(** What follows "Second entity: " in the message. *)
Inductive Entity : Set :=
  | EntityWorkItem (global local group : Size3.t)
  | EntityGroup (group : Size3.t)
  | EntityUnknown.

(** The message handed to the context: the fields [logRace] gets from its
    caller.  Kernel, first entity and location are filled in by the message
    class from the ambient context. *)
Record Message : Set := {
  msg_type : DataRaceType;
  msg_addrSpace : AddressSpace;
  msg_address : N;
  msg_second : Entity;
  msg_lastInstruction : Instruction
}.

Definition nonzero3 (s : Size3.t) : bool :=
  negb (Size3.x s =? 0) && negb (Size3.y s =? 0) && negb (Size3.z s =? 0).

(** [RaceDetector::logRace].  The parameters come in the order of the source:
    [lastWorkGroup] before [lastWorkItem]. *)
Definition logRace (d : RaceDetector) (type : DataRaceType) (addrSpace : AddressSpace)
    (address lastWorkGroup lastWorkItem : N) (lastInstruction : Instruction)
  : option Message :=
  second ←
    (if negb (lastWorkItem =? MINUS_ONE) then
       k ← m_kernelInvocation d;
       if nonzero3 (getLocalSize k) then
         let global := Size3.of_linear lastWorkItem (getGlobalSize k) in
         let local :=
           Size3.mk (Size3.x global mod Size3.x (getLocalSize k))
                    (Size3.y global mod Size3.y (getLocalSize k))
                    (Size3.z global mod Size3.z (getLocalSize k)) in
         let group :=
           Size3.mk (Size3.x global / Size3.x (getLocalSize k))
                    (Size3.y global / Size3.y (getLocalSize k))
                    (Size3.z global / Size3.z (getLocalSize k)) in
         Some (EntityWorkItem global local group)
       else None
     else if negb (lastWorkGroup =? MINUS_ONE) then
       k ← m_kernelInvocation d;
       Some (EntityGroup (Size3.of_linear lastWorkGroup (getNumGroups k)))
     else Some EntityUnknown);
  Some {| msg_type := type;
          msg_addrSpace := addrSpace;
          msg_address := address;
          msg_second := second;
          msg_lastInstruction := lastInstruction |}.

(** ** The callbacks *)

(** [RaceDetector::RaceDetector].  [checkEnv] is not part of the sources at
    hand; its answer for OCLGRIND_UNIFORM_WRITES is the second argument. *)
Definition RaceDetector_ctor (context : Context) (checkEnv_UNIFORM_WRITES : bool)
  : RaceDetector :=
  {| m_context := context;
     m_kernelInvocation := None;
     m_allowUniformWrites := negb checkEnv_UNIFORM_WRITES;
     m_state := ∅ |}.

Definition kernelBegin (d : RaceDetector) (kernelInvocation : option KernelInvocation)
  : RaceDetector :=
  with_kernelInvocation d kernelInvocation.

(** The body of the inner loop of [synchronize], for one cell. *)
Definition synchronizeState (workGroupOnly : bool) (state : State) : State :=
  {| instruction := instruction state;
     workItem := MINUS_ONE;
     workGroup := if workGroupOnly then workGroup state else MINUS_ONE;
     canAtomic := true;
     canRead := if workGroupOnly then canRead state else true;
     canWrite := if workGroupOnly then canWrite state else true;
     wasWorkItem := false |}.

(** One turn of the outer loop of [synchronize]: an entry whose key names
    another memory is skipped, the others have all their cells swept. *)
Definition synchronizeEntry (memory : Memory) (workGroupOnly : bool)
    (key : N * N) (cells : list State) : list State :=
  if decide (key.1 = mem_id memory)
  then synchronizeState workGroupOnly <$> cells
  else cells.

(** [RaceDetector::synchronize] *)
Definition synchronize (d : RaceDetector) (memory : Memory) (workGroupOnly : bool)
  : RaceDetector :=
  with_state d
    (map_imap (λ key cells, Some (synchronizeEntry memory workGroupOnly key cells))
       (m_state d)).

Definition kernelEnd (d : RaceDetector) (kernelInvocation : option KernelInvocation)
  : RaceDetector :=
  with_kernelInvocation
    (synchronize d (getGlobalMemory (m_context d)) false) None.

Definition workGroupBarrier (d : RaceDetector) (wGroup : WorkGroup) (flags : N)
  : RaceDetector :=
  let d1 :=
    if negb (N.land flags CLK_LOCAL_MEM_FENCE =? 0)
    then synchronize d (getLocalMemory wGroup) false else d in
  if negb (N.land flags CLK_GLOBAL_MEM_FENCE =? 0)
  then synchronize d1 (getGlobalMemory (m_context d1)) true else d1.

Definition memoryAllocated (d : RaceDetector) (memory : Memory) (address size : N)
  : RaceDetector :=
  if decide (getAddressSpace memory = AddrSpacePrivate) then d
  else with_state d
         (<[KEY memory address := replicate (N.to_nat size) State_ctor]> (m_state d)).

(** [delete[] m_state[key].first; m_state.erase(key)]: indexing may create the
    entry, the erasure removes it again. *)
Definition memoryDeallocated (d : RaceDetector) (memory : Memory) (address : N)
  : RaceDetector :=
  if decide (getAddressSpace memory = AddrSpacePrivate) then d
  else with_state d
         (delete (KEY memory address) (StateMap_index (m_state d) (KEY memory address)).2).

(** *** Atomic accesses *)

(** The body of the loop of [memoryAtomic] for the cell [state]: the check
    against non-atomic operations, then the update. *)
Definition memoryAtomic_byte (d : RaceDetector) (memory : Memory) (wItem : WorkItem)
    (address : N) (state : State) : option (State * list Message) :=
  let workItemIndex := getGlobalIndex wItem in
  msgs ←
    (if negb (canAtomic state) && negb (workItemIndex =? workItem state) then
       msg ← logRace d ReadWriteRace (getAddressSpace memory) address
               (workItem state) (workGroup state) (instruction state);
       Some [msg]
     else Some []);
  Some
    ({| instruction :=
          if wasWorkItem state then instruction state else getCurrentInstruction wItem;
        workItem := if wasWorkItem state then workItem state else workItemIndex;
        workGroup := workGroup state;
        canAtomic := canAtomic state;
        canRead := false;
        canWrite := false;
        wasWorkItem := true |},
     msgs).

(** [n] turns of the loop of [memoryAtomic], from [offset] on.  The cell under
    the [state] pointer is [cells[base + offset]]. *)
Fixpoint memoryAtomic_loop (d : RaceDetector) (memory : Memory) (wItem : WorkItem)
    (address base : N) (n : nat) (offset : N) (cells : list State) (msgs : list Message)
  : option (list State * list Message) :=
  match n with
  | O => Some (cells, msgs)
  | S n' =>
      state ← cells !! N.to_nat (base + offset);
      '(state', new) ← memoryAtomic_byte d memory wItem address state;
      memoryAtomic_loop d memory wItem address base n' (offset + 1)
        (<[N.to_nat (base + offset) := state']> cells) (msgs ++ new)
  end.

(** [RaceDetector::memoryAtomic] *)
Definition memoryAtomic (d : RaceDetector) (memory : Memory) (wItem : WorkItem)
    (op : AtomicOp) (address size : N) : option (RaceDetector * list Message) :=
  let '(cells, m) := StateMap_index (m_state d) (KEY memory address) in
  '(cells', msgs) ←
    memoryAtomic_loop d memory wItem address (EXTRACT_OFFSET address)
      (N.to_nat size) 0 cells [];
  Some (with_state d (<[KEY memory address := cells']> m), msgs).

(** *** Loads and stores *)

Section registerLoadStore.
Variables (d : RaceDetector) (memory : Memory).
Variables (wItem : option WorkItem) (wGroup : option WorkGroup).
Variables (address size : N) (storeData : option (list N)).

Definition load : bool := if storeData is Some _ then false else true.
Definition store : bool := if storeData is Some _ then true else false.

Definition workItemIndex : N :=
  if wItem is Some w then getGlobalIndex w else MINUS_ONE.
Definition workGroupIndex : N :=
  if wGroup is Some g then getGroupIndex g else MINUS_ONE.

(** [conflict], after the uniform-write test.  The store buffer is read at
    [offset] whenever the test is on, whatever the flags of the cell. *)
Definition conflict (offset : N) (state : State) : option bool :=
  let conflict := if store then negb (canWrite state) else negb (canRead state) in
  match storeData with
  | Some data =>
      if m_allowUniformWrites d then
        byte ← data !! N.to_nat offset;
        Some (conflict && negb (getPointer memory address offset =? byte))
      else Some conflict
  | None => Some conflict
  end.

(** The third conjunct of the race test: the cell was set by somebody else. *)
Definition otherEntity (state : State) : bool :=
  if wasWorkItem state
  then negb (workItem state =? workItemIndex)
  else negb (workGroup state =? workGroupIndex).

(** The [else] branch of the loop body. *)
Definition updateState (state : State) : State :=
  let updateWI := store || (load && canWrite state) in
  {| instruction :=
       if updateWI then
         if wItem is Some w then getCurrentInstruction w else instruction state
       else instruction state;
     workItem :=
       if updateWI then
         if wItem is Some w then workItemIndex else workItem state
       else workItem state;
     workGroup := if updateWI then workGroupIndex else workGroup state;
     canAtomic := false;
     canRead := canRead state && load;
     canWrite := false;
     wasWorkItem :=
       if updateWI then
         if wItem is Some w then true else wasWorkItem state
       else wasWorkItem state |}.

Definition raceType (state : State) : DataRaceType :=
  if load || canRead state then ReadWriteRace else WriteWriteRace.

(** The body of the loop of [registerLoadStore] at [offset], on the cell
    [state] and with the flag [race] as it stands: the new flag, the new
    cell and what was sent. *)
Definition registerLoadStore_byte (offset : N) (race : bool) (state : State)
  : option (bool * State * list Message) :=
  c ← conflict offset state;
  if negb race && c && otherEntity state then
    msg ← logRace d (raceType state) (getAddressSpace memory)
            (size_t_add address offset)
            (workItem state) (workGroup state) (instruction state);
    Some (true, state, [msg])
  else Some (race, updateState state, []).

Fixpoint registerLoadStore_loop (base : N) (n : nat) (offset : N) (race : bool)
    (cells : list State) (msgs : list Message)
  : option (list State * list Message) :=
  match n with
  | O => Some (cells, msgs)
  | S n' =>
      state ← cells !! N.to_nat (base + offset);
      '(race', state', new) ← registerLoadStore_byte offset race state;
      registerLoadStore_loop base n' (offset + 1) race'
        (<[N.to_nat (base + offset) := state']> cells) (msgs ++ new)
  end.

(** [RaceDetector::registerLoadStore] *)
Definition registerLoadStore : option (RaceDetector * list Message) :=
  match m_kernelInvocation d with
  | None => Some (d, [])
  | Some _ =>
      if decide (getAddressSpace memory = AddrSpacePrivate) then Some (d, [])
      else
        let base := EXTRACT_OFFSET address in
        let '(cells, m) := StateMap_index (m_state d) (KEY memory address) in
        '(cells', msgs) ←
          registerLoadStore_loop base (N.to_nat size) 0 false cells [];
        Some (with_state d (<[KEY memory address := cells']> m), msgs)
  end.
End registerLoadStore.

(** The four public entry points. *)
Definition memoryLoad_WI (d : RaceDetector) (memory : Memory) (wItem : WorkItem)
    (address size : N) : option (RaceDetector * list Message) :=
  registerLoadStore d memory (Some wItem) (Some (getWorkGroup wItem)) address size None.

Definition memoryLoad_WG (d : RaceDetector) (memory : Memory) (wGroup : WorkGroup)
    (address size : N) : option (RaceDetector * list Message) :=
  registerLoadStore d memory None (Some wGroup) address size None.

Definition memoryStore_WI (d : RaceDetector) (memory : Memory) (wItem : WorkItem)
    (address size : N) (storeData : list N) : option (RaceDetector * list Message) :=
  registerLoadStore d memory (Some wItem) (Some (getWorkGroup wItem)) address size
    (Some storeData).

Definition memoryStore_WG (d : RaceDetector) (memory : Memory) (wGroup : WorkGroup)
    (address size : N) (storeData : list N) : option (RaceDetector * list Message) :=
  registerLoadStore d memory None (Some wGroup) address size (Some storeData).

(** ** A small launch to run the callbacks on

    Global size 4, local size 2: two groups of two work-items.  One region of
    16 bytes in global memory, with buffer id 1; the memory holds [content]
    everywhere. *)
Module Scenario.
Definition kernel : KernelInvocation :=
  {| getGlobalSize := Size3.mk 4 1 1;
     getLocalSize := Size3.mk 2 1 1;
     getNumGroups := Size3.mk 2 1 1 |}.

Definition globalMemory (content : N) : Memory :=
  {| mem_id := 1; getAddressSpace := AddrSpaceGlobal; getPointer := λ _ _, content |}.
Definition localMemory (group : N) : Memory :=
  {| mem_id := 10 + group; getAddressSpace := AddrSpaceLocal; getPointer := λ _ _, 0 |}.
Definition privateMemory : Memory :=
  {| mem_id := 20; getAddressSpace := AddrSpacePrivate; getPointer := λ _ _, 0 |}.

Definition WG (group : N) : WorkGroup :=
  {| getGroupIndex := group; getLocalMemory := localMemory group |}.
(** Work-item [i] sits in group [i / 2] and is at instruction [100 + i]. *)
Definition WI (i : N) : WorkItem :=
  {| getGlobalIndex := i; getWorkGroup := WG (i / 2);
     getCurrentInstruction := Some (100 + i) |}.

Definition region : N := N.shiftl 1 NUM_ADDRESS_BITS.

(** The detector after construction, allocation of the region and
    [kernelBegin]. *)
Definition started (uniformWritesEnv : bool) : RaceDetector :=
  kernelBegin
    (memoryAllocated
       (RaceDetector_ctor {| getGlobalMemory := globalMemory 0 |} uniformWritesEnv)
       (globalMemory 0) region 16)
    (Some kernel).

(** The cells of the region. *)
Definition cells (d : RaceDetector) : option (list State) := m_state d !! (1, 1).
End Scenario.

(** ** Definitions used in the statements *)

(** What a full sweep leaves in a cell: the constructor's values, and the
    instruction handle the cell had. *)
Definition resetKeepingInstruction (state : State) : State :=
  {| instruction := instruction state;
     workItem := MINUS_ONE;
     workGroup := MINUS_ONE;
     canAtomic := true;
     canRead := true;
     canWrite := true;
     wasWorkItem := false |}.

(** The detector of [Scenario] after work-item 0 has stored one byte at the
    start of the region. *)
Definition afterFirstStore : option RaceDetector :=
  fst <$> memoryStore_WI (Scenario.started false) (Scenario.globalMemory 0)
            (Scenario.WI 0) Scenario.region 1 [170].

(** The second entity as the spec words it: from the recorded work-item when
    there is one, else from the recorded work-group, else unknown. *)
Definition secondEntity_spec (k : KernelInvocation)
    (recordedWorkItem recordedWorkGroup : N) : Entity :=
  if negb (recordedWorkItem =? MINUS_ONE) then
    let global := Size3.of_linear recordedWorkItem (getGlobalSize k) in
    EntityWorkItem global
      (Size3.mk (Size3.x global mod Size3.x (getLocalSize k))
                (Size3.y global mod Size3.y (getLocalSize k))
                (Size3.z global mod Size3.z (getLocalSize k)))
      (Size3.mk (Size3.x global / Size3.x (getLocalSize k))
                (Size3.y global / Size3.y (getLocalSize k))
                (Size3.z global / Size3.z (getLocalSize k)))
  else if negb (recordedWorkGroup =? MINUS_ONE) then
    EntityGroup (Size3.of_linear recordedWorkGroup (getNumGroups k))
  else EntityUnknown.

(** The detector with the cell [index] of the region under [key] replaced. *)
Definition setCell (d : RaceDetector) (key : N * N) (cells : list State)
    (index : nat) (state : State) : RaceDetector :=
  with_state d (<[key := <[index := state]> cells]> (m_state d)).

(** The message a store or a load sends for the cell [state]. *)
Definition raceMessage (memory : Memory) (address : N) (storeData : option (list N))
    (state : State) (second : Entity) : Message :=
  {| msg_type := raceType storeData state;
     msg_addrSpace := getAddressSpace memory;
     msg_address := size_t_add address 0;
     msg_second := second;
     msg_lastInstruction := instruction state |}.

(** What a store of work-item [w] records in a cell. *)
Definition storedBy (w : WorkItem) : State :=
  {| instruction := getCurrentInstruction w;
     workItem := getGlobalIndex w;
     workGroup := getGroupIndex (getWorkGroup w);
     canAtomic := false;
     canRead := false;
     canWrite := false;
     wasWorkItem := true |}.

(** The test under which a one-byte store of [v] by [w] is reported. *)
Definition storeReported (d : RaceDetector) (memory : Memory) (address v : N)
    (w : WorkItem) (state : State) : bool :=
  negb (canWrite state)
  && (negb (m_allowUniformWrites d) || negb (getPointer memory address 0 =? v))
  && otherEntity (Some w) (Some (getWorkGroup w)) state.

(** What [memoryAtomic] leaves in a cell. *)
Definition atomicState (w : WorkItem) (state : State) : State :=
  {| instruction := if wasWorkItem state then instruction state else getCurrentInstruction w;
     workItem := if wasWorkItem state then workItem state else getGlobalIndex w;
     workGroup := workGroup state;
     canAtomic := canAtomic state;
     canRead := false;
     canWrite := false;
     wasWorkItem := true |}.

Section report.
Variables (d : RaceDetector) (memory : Memory).
Variables (wItem : option WorkItem) (wGroup : option WorkGroup).
Variables (address : N) (storeData : option (list N)) (base : N).

(** The cell at [offset] holds [state] and passes the race test: it
    conflicts with the access and was set by another entity. *)
Definition reports (offset : N) (state : State) : Prop :=
  conflict d memory address storeData offset state = Some true
  ∧ otherEntity wItem wGroup state = true.

(** The message sent for the cell [state] at [offset]. *)
Definition reportOf (offset : N) (state : State) : option Message :=
  logRace d (raceType storeData state) (getAddressSpace memory)
    (size_t_add address offset)
    (workItem state) (workGroup state) (instruction state).

(** What [n] turns of the loop from [offset] on do to the cells they visit:
    either nothing is sent and every cell is updated, or the flag was down,
    one cell is reported and keeps its state, and all the others are
    updated, none before it passing the race test. *)
Definition outcome (offset : N) (n : nat) (race : bool)
    (cells cells' : list State) (new : list Message) : Prop :=
  (new = []
   ∧ ∀ j state,
       offset ≤ j < offset + N.of_nat n →
       cells !! N.to_nat (base + j) = Some state →
       cells' !! N.to_nat (base + j) = Some (updateState wItem wGroup storeData state)
       ∧ (race = false → ¬ reports j state))
  ∨ (race = false
     ∧ ∃ j state msg,
         offset ≤ j < offset + N.of_nat n
         ∧ cells !! N.to_nat (base + j) = Some state
         ∧ reports j state
         ∧ reportOf j state = Some msg
         ∧ new = [msg]
         ∧ cells' !! N.to_nat (base + j) = Some state
         ∧ ∀ j' state',
             offset ≤ j' < offset + N.of_nat n →
             j' ≠ j →
             cells !! N.to_nat (base + j') = Some state' →
             cells' !! N.to_nat (base + j')
             = Some (updateState wItem wGroup storeData state')
             ∧ (j' < j → ¬ reports j' state')).
End report.

(** The test of [memoryAtomic] against non-atomic operations. *)
Definition atomicConflict (w : WorkItem) (state : State) : bool :=
  negb (canAtomic state) && negb (getGlobalIndex w =? workItem state).

(** What a load of work-item [w] records in a cell that was still writable. *)
Definition loadedBy (w : WorkItem) : State :=
  {| instruction := getCurrentInstruction w;
     workItem := getGlobalIndex w;
     workGroup := getGroupIndex (getWorkGroup w);
     canAtomic := false;
     canRead := true;
     canWrite := false;
     wasWorkItem := true |}.

(** The cell an address points to. *)
Definition cellAt (d : RaceDetector) (memory : Memory) (address : N) : option State :=
  m_state d !! KEY memory address ≫= (.!! N.to_nat (EXTRACT_OFFSET address)).

(** The launch of [Scenario] with a region of 8 bytes in the local memory of
    group 0, after work-item 0 has stored one byte at its start. *)
Definition localStarted : RaceDetector :=
  memoryAllocated (Scenario.started false) (Scenario.localMemory 0) Scenario.region 8.
Definition afterLocalStore : RaceDetector :=
  default localStarted
    (fst <$> memoryStore_WI localStarted (Scenario.localMemory 0) (Scenario.WI 0)
               Scenario.region 1 [5]).

(** * Properties *)

(** ** Basic facts about the detector record and the state map *)

Lemma with_state_id (d : RaceDetector) : with_state d (m_state d) = d.
Proof. by destruct d. Qed.

Lemma StateMap_index_Some (m : StateMap) key cells :
  m !! key = Some cells → StateMap_index m key = (cells, m).
Proof. intros H. unfold StateMap_index. by rewrite H. Qed.

Lemma StateMap_index_None (m : StateMap) key :
  m !! key = None → StateMap_index m key = ([], <[key := []]> m).
Proof. intros H. unfold StateMap_index. by rewrite H. Qed.

Lemma synchronize_lookup d memory workGroupOnly key :
  m_state (synchronize d memory workGroupOnly) !! key
  = synchronizeEntry memory workGroupOnly key <$> m_state d !! key.
Proof.
  unfold synchronize. simpl. rewrite map_lookup_imap.
  by destruct (m_state d !! key).
Qed.

Lemma synchronize_kernelInvocation d memory workGroupOnly :
  m_kernelInvocation (synchronize d memory workGroupOnly) = m_kernelInvocation d.
Proof. reflexivity. Qed.

(** With a kernel whose local size has no zero component, [logRace] always
    composes a message. *)
Lemma logRace_defined d k type addrSpace address lastWorkGroup lastWorkItem lastInstruction :
  m_kernelInvocation d = Some k →
  nonzero3 (getLocalSize k) = true →
  ∃ second,
    logRace d type addrSpace address lastWorkGroup lastWorkItem lastInstruction
    = Some {| msg_type := type; msg_addrSpace := addrSpace; msg_address := address;
              msg_second := second; msg_lastInstruction := lastInstruction |}.
Proof.
  intros Hk Hnz. unfold logRace. rewrite Hk. simpl. rewrite Hnz.
  destruct (negb (lastWorkItem =? MINUS_ONE)); [by eexists|].
  destruct (negb (lastWorkGroup =? MINUS_ONE)); by eexists.
Qed.

(** ** Events without a current kernel *)

Lemma kernelEnd_no_kernel d kernelInvocation :
  m_kernelInvocation (kernelEnd d kernelInvocation) = None.
Proof. reflexivity. Qed.

Lemma RaceDetector_ctor_no_kernel context env :
  m_kernelInvocation (RaceDetector_ctor context env) = None.
Proof. reflexivity. Qed.

(** C9.  While no kernel invocation is current, a load or a store, in the
    work-item form or in the work-group form, gives back the detector as it
    was, shadow cells included, and sends no message. *)
Theorem load_store_without_kernel_ignored
    (d : RaceDetector) (memory : Memory) (wItem : WorkItem) (wGroup : WorkGroup)
    (address size : N) (storeData : list N) :
  m_kernelInvocation d = None →
  memoryLoad_WI d memory wItem address size = Some (d, [])
  ∧ memoryLoad_WG d memory wGroup address size = Some (d, [])
  ∧ memoryStore_WI d memory wItem address size storeData = Some (d, [])
  ∧ memoryStore_WG d memory wGroup address size storeData = Some (d, []).
Proof.
  intros Hk.
  unfold memoryLoad_WI, memoryLoad_WG, memoryStore_WI, memoryStore_WG, registerLoadStore.
  rewrite Hk. done.
Qed.

(** After [kernelEnd] of the launch of [Scenario], a two-byte store of
    work-item 0 to the region is dropped. *)
Lemma load_store_without_kernel_ignored_witness :
  let d := kernelEnd (Scenario.started false) (Some Scenario.kernel) in
  m_kernelInvocation d = None
  ∧ memoryStore_WI d (Scenario.globalMemory 0) (Scenario.WI 0) Scenario.region 2 [1; 2]
    = Some (d, []).
Proof.
  intros d. split; [reflexivity|].
  apply (load_store_without_kernel_ignored d (Scenario.globalMemory 0)
           (Scenario.WI 0) (Scenario.WG 0) Scenario.region 2 [1; 2]).
  reflexivity.
Defined.

(** ** Private memory *)

(** The callbacks that test the address space leave the detector alone for
    private memory. *)
Lemma private_guarded_events_ignored d memory wItem wGroup address size storeData :
  getAddressSpace memory = AddrSpacePrivate →
  memoryAllocated d memory address size = d
  ∧ memoryDeallocated d memory address = d
  ∧ registerLoadStore d memory wItem wGroup address size storeData = Some (d, []).
Proof.
  intros Hp. unfold memoryAllocated, memoryDeallocated, registerLoadStore.
  rewrite !decide_True by done. by destruct (m_kernelInvocation d).
Qed.

(** C3.  [memoryAtomic] does not test the address space.  On a detector with
    an empty state map, an atomic access of size 0 to private memory inserts
    the key of that memory, and one of size 4 reads a cell of an array that
    does not exist. *)
Theorem private_atomic_touches_state_map :
  let d := RaceDetector_ctor {| getGlobalMemory := Scenario.globalMemory 0 |} false in
  getAddressSpace Scenario.privateMemory = AddrSpacePrivate
  ∧ m_state d !! KEY Scenario.privateMemory 5 = None
  ∧ (∃ d', memoryAtomic d Scenario.privateMemory (Scenario.WI 0) AtomicAdd 5 0
           = Some (d', [])
           ∧ m_state d' !! KEY Scenario.privateMemory 5 = Some []
           ∧ d' ≠ d)
  ∧ memoryAtomic d Scenario.privateMemory (Scenario.WI 0) AtomicAdd 5 4 = None.
Proof.
  intros d. split; [reflexivity|]. split; [reflexivity|]. split; [|reflexivity].
  eexists. split; [reflexivity|]. split; [reflexivity|].
  intros Heq. apply (f_equal (λ r, m_state r !! KEY Scenario.privateMemory 5)) in Heq.
  vm_compute in Heq. discriminate.
Qed.

(** ** Synchronisation *)

Lemma synchronizeState_full state :
  synchronizeState false state = resetKeepingInstruction state.
Proof. reflexivity. Qed.

Lemma synchronize_other_memory d memory workGroupOnly key :
  key.1 ≠ mem_id memory →
  m_state (synchronize d memory workGroupOnly) !! key = m_state d !! key.
Proof.
  intros Hne. rewrite synchronize_lookup.
  destruct (m_state d !! key) as [cells|]; [|done]. simpl.
  unfold synchronizeEntry. by rewrite decide_False.
Qed.

Lemma synchronize_same_memory d memory workGroupOnly key cells :
  key.1 = mem_id memory →
  m_state d !! key = Some cells →
  m_state (synchronize d memory workGroupOnly) !! key
  = Some (synchronizeState workGroupOnly <$> cells).
Proof.
  intros He Hc. rewrite synchronize_lookup, Hc. simpl.
  unfold synchronizeEntry. by rewrite decide_True.
Qed.

(** C5, as stated, fails: after the store above, [kernelEnd] leaves the
    instruction handle of work-item 0 in the first cell of the region, which
    is therefore not in the constructor's state. *)
Lemma kernelEnd_keeps_instruction :
  ∃ d cell,
    afterFirstStore = Some d
    ∧ Scenario.cells (kernelEnd d (Some Scenario.kernel)) ≫= (.!! 0%nat) = Some cell
    ∧ instruction cell = Some 100
    ∧ cell ≠ State_ctor.
Proof.
  eexists. eexists. split; [reflexivity|]. split; [vm_compute; reflexivity|].
  split; [reflexivity|]. discriminate.
Qed.

(** C5, amended.  [synchronize] with [workGroupOnly = false] leaves every
    region of the memory it is given with each cell reset to no work-item, no
    work-group, not set by a work-item, readable, writable and open to
    atomics, the instruction handle being the one the cell had; [kernelEnd]
    does so for the global memory of the context. *)
Theorem synchronize_full_resets_all_but_instruction
    (d : RaceDetector) (memory : Memory) (key : N * N) (cells : list State) :
  key.1 = mem_id memory →
  m_state d !! key = Some cells →
  m_state (synchronize d memory false) !! key
  = Some (resetKeepingInstruction <$> cells)
  ∧ (memory = getGlobalMemory (m_context d) →
     ∀ kernelInvocation,
       m_state (kernelEnd d kernelInvocation) !! key
       = Some (resetKeepingInstruction <$> cells)).
Proof.
  intros He Hc. split.
  - by rewrite (synchronize_same_memory _ _ _ _ cells).
  - intros -> kernelInvocation.
    change (m_state (kernelEnd d kernelInvocation))
      with (m_state (synchronize d (getGlobalMemory (m_context d)) false)).
    by rewrite (synchronize_same_memory _ _ _ _ cells).
Qed.

Lemma synchronize_full_resets_all_but_instruction_witness :
  ∃ d cells,
    afterFirstStore = Some d
    ∧ m_state d !! (1, 1) = Some cells
    ∧ m_state (kernelEnd d (Some Scenario.kernel)) !! (1, 1)
      = Some (resetKeepingInstruction <$> cells).
Proof.
  eexists. eexists. split; [reflexivity|]. split; [vm_compute; reflexivity|].
  eapply (synchronize_full_resets_all_but_instruction _ (Scenario.globalMemory 0) (1, 1)).
  - reflexivity.
  - vm_compute; reflexivity.
  - reflexivity.
Defined.

(** ** Number of messages of an atomic access *)

(** C4.  [memoryAtomic] has no flag that stops the reports after the first
    one.  Work-item 0 stores two bytes; the atomic access of work-item 1 to
    these two bytes then sends two messages, both with the address of the
    access. *)
Theorem atomic_reports_every_conflicting_byte :
  ∃ d1 d2 msg,
    memoryStore_WI (Scenario.started false) (Scenario.globalMemory 0) (Scenario.WI 0)
      Scenario.region 2 [170; 170] = Some (d1, [])
    ∧ memoryAtomic d1 (Scenario.globalMemory 0) (Scenario.WI 1) AtomicAdd
        Scenario.region 2 = Some (d2, [msg; msg])
    ∧ msg_type msg = ReadWriteRace
    ∧ msg_address msg = Scenario.region.
Proof.
  eexists. eexists. eexists.
  split; [vm_compute; reflexivity|]. split; [vm_compute; reflexivity|]. done.
Qed.

(** ** The second entity of a message *)

(** [logRace] composes the second entity the way the spec words it, from
    its parameters [lastWorkItem] and [lastWorkGroup]. *)
Lemma logRace_second_entity d k type addrSpace address lastWorkGroup lastWorkItem
    lastInstruction msg :
  m_kernelInvocation d = Some k →
  logRace d type addrSpace address lastWorkGroup lastWorkItem lastInstruction
  = Some msg →
  msg_second msg = secondEntity_spec k lastWorkItem lastWorkGroup.
Proof.
  intros Hk. unfold logRace, secondEntity_spec. rewrite Hk. simpl.
  destruct (negb (lastWorkItem =? MINUS_ONE)).
  - destruct (nonzero3 (getLocalSize k)); [|done]. simpl. by intros [= <-].
  - destruct (negb (lastWorkGroup =? MINUS_ONE)); simpl; by intros [= <-].
Qed.

(** C1.  The callers of [logRace] hand over the recorded work-item where the
    function expects the work-group, and the work-group where it expects the
    work-item.  Group 1 stores a byte as a group, so that the cell records
    work-group 1 and no work-item; the store of work-item 0 to that byte is
    then reported with work-item 1 as second entity, where the recorded
    values call for group 1. *)
Theorem logRace_arguments_swapped :
  ∃ d1 d2 cell msg,
    memoryStore_WG (Scenario.started false) (Scenario.globalMemory 0) (Scenario.WG 1)
      Scenario.region 1 [170] = Some (d1, [])
    ∧ Scenario.cells d1 ≫= (.!! 0%nat) = Some cell
    ∧ workItem cell = MINUS_ONE
    ∧ workGroup cell = 1
    ∧ memoryStore_WI d1 (Scenario.globalMemory 0) (Scenario.WI 0)
        Scenario.region 1 [187] = Some (d2, [msg])
    ∧ msg_second msg
      = EntityWorkItem (Size3.mk 1 0 0) (Size3.mk 1 0 0) (Size3.mk 0 0 0)
    ∧ secondEntity_spec Scenario.kernel (workItem cell) (workGroup cell)
      = EntityGroup (Size3.mk 1 0 0).
Proof.
  eexists. eexists. eexists. eexists.
  split; [vm_compute; reflexivity|]. split; [vm_compute; reflexivity|].
  split; [reflexivity|]. split; [reflexivity|].
  split; [vm_compute; reflexivity|]. split; reflexivity.
Qed.

(** ** Accesses of a single byte *)

Lemma setCell_lookup d key cells index state :
  (index < length cells)%nat →
  m_state (setCell d key cells index state) !! key ≫= (.!! index) = Some state.
Proof.
  intros Hlt. unfold setCell. simpl. rewrite lookup_insert_eq. simpl.
  by apply list_lookup_insert_eq.
Qed.

Lemma setCell_kernelInvocation d key cells index state :
  m_kernelInvocation (setCell d key cells index state) = m_kernelInvocation d.
Proof. reflexivity. Qed.

Section single_byte.
Variables (d : RaceDetector) (k : KernelInvocation) (memory : Memory).
Variables (address : N) (cells : list State) (state : State).
Hypothesis Hkernel : m_kernelInvocation d = Some k.
Hypothesis Hregion : m_state d !! KEY memory address = Some cells.
Hypothesis Hcell : cells !! N.to_nat (EXTRACT_OFFSET address) = Some state.

Lemma registerLoadStore_single wItem wGroup storeData :
  getAddressSpace memory ≠ AddrSpacePrivate →
  registerLoadStore d memory wItem wGroup address 1 storeData
  = '(_, state', new) ←
      registerLoadStore_byte d memory wItem wGroup address storeData 0 false state;
    Some (setCell d (KEY memory address) cells (N.to_nat (EXTRACT_OFFSET address)) state',
          new).
Proof using Hkernel Hregion Hcell.
  intros Hsp. unfold registerLoadStore. rewrite Hkernel, decide_False by done.
  rewrite (StateMap_index_Some _ _ cells) by done.
  change (N.to_nat 1) with 1%nat. simpl. rewrite N.add_0_r, Hcell. simpl.
  destruct (registerLoadStore_byte _ _ _ _ _ _ _ _ _) as [[[race' state'] new]|];
    [|done].
  done.
Qed.

Lemma memoryAtomic_single wItem op :
  memoryAtomic d memory wItem op address 1
  = '(state', new) ← memoryAtomic_byte d memory wItem address state;
    Some (setCell d (KEY memory address) cells (N.to_nat (EXTRACT_OFFSET address)) state',
          new).
Proof using Hregion Hcell.
  unfold memoryAtomic. rewrite (StateMap_index_Some _ _ cells) by done.
  change (N.to_nat 1) with 1%nat. simpl. rewrite N.add_0_r, Hcell. simpl.
  destruct (memoryAtomic_byte _ _ _ _ _) as [[state' new]|]; [|done].
  done.
Qed.
End single_byte.

(** The two outcomes of the loop body of [registerLoadStore]. *)
Lemma registerLoadStore_byte_report d k memory wItem wGroup address storeData
    offset state :
  m_kernelInvocation d = Some k →
  nonzero3 (getLocalSize k) = true →
  conflict d memory address storeData offset state = Some true →
  otherEntity wItem wGroup state = true →
  ∃ second,
    registerLoadStore_byte d memory wItem wGroup address storeData offset false state
    = Some (true, state,
            [{| msg_type := raceType storeData state;
                msg_addrSpace := getAddressSpace memory;
                msg_address := size_t_add address offset;
                msg_second := second;
                msg_lastInstruction := instruction state |}]).
Proof.
  intros Hk Hnz Hc Ho. unfold registerLoadStore_byte. rewrite Hc, Ho. simpl.
  destruct (logRace_defined d k (raceType storeData state) (getAddressSpace memory)
              (size_t_add address offset) (workItem state) (workGroup state)
              (instruction state) Hk Hnz) as [second ->].
  by exists second.
Qed.

Lemma registerLoadStore_byte_update d memory wItem wGroup address storeData
    offset race state c :
  conflict d memory address storeData offset state = Some c →
  negb race && c && otherEntity wItem wGroup state = false →
  registerLoadStore_byte d memory wItem wGroup address storeData offset race state
  = Some (race, updateState wItem wGroup storeData state, []).
Proof.
  intros Hc Hn. unfold registerLoadStore_byte. rewrite Hc. simpl. by rewrite Hn.
Qed.

(** What a store of a work-item leaves in a cell it updates. *)
Lemma updateState_store_WI w g data state :
  updateState (Some w) (Some g) (Some data) state
  = {| instruction := getCurrentInstruction w;
       workItem := getGlobalIndex w;
       workGroup := getGroupIndex g;
       canAtomic := false;
       canRead := false;
       canWrite := false;
       wasWorkItem := true |}.
Proof. unfold updateState. simpl. by rewrite andb_false_r. Qed.

(** The conflict test of a one-byte store and of a load. *)
Lemma conflict_store d memory address v state :
  conflict d memory address (Some [v]) 0 state
  = Some (negb (canWrite state)
          && (negb (m_allowUniformWrites d) || negb (getPointer memory address 0 =? v))).
Proof.
  unfold conflict, store. simpl.
  destruct (m_allowUniformWrites d); simpl; [done|].
  by rewrite andb_true_r.
Qed.

Lemma conflict_load d memory address offset state :
  conflict d memory address None offset state = Some (negb (canRead state)).
Proof. reflexivity. Qed.

(** ** A barrier of one group does not clear a store for the other groups *)

Lemma workGroupBarrier_kernelInvocation d wGroup flags :
  m_kernelInvocation (workGroupBarrier d wGroup flags) = m_kernelInvocation d.
Proof.
  unfold workGroupBarrier.
  destruct (negb (N.land flags CLK_LOCAL_MEM_FENCE =? 0));
    destruct (negb (N.land flags CLK_GLOBAL_MEM_FENCE =? 0)); reflexivity.
Qed.

(** With the global fence bit set, the regions of global memory are swept
    with [workGroupOnly = true], and by nothing else as long as the local
    memory of the group is another memory. *)
Lemma workGroupBarrier_global_lookup d wGroup flags key cells :
  N.land flags CLK_GLOBAL_MEM_FENCE ≠ 0 →
  key.1 = mem_id (getGlobalMemory (m_context d)) →
  mem_id (getLocalMemory wGroup) ≠ key.1 →
  m_state d !! key = Some cells →
  m_state (workGroupBarrier d wGroup flags) !! key
  = Some (synchronizeState true <$> cells).
Proof.
  intros Hg Hk Hl Hc. unfold workGroupBarrier.
  apply N.eqb_neq in Hg. rewrite Hg. simpl.
  destruct (negb (N.land flags CLK_LOCAL_MEM_FENCE =? 0)).
  - apply synchronize_same_memory; [done|].
    rewrite synchronize_other_memory; done.
  - by apply synchronize_same_memory.
Qed.

(** C8, as stated, fails: in the launch of [Scenario], work-item 3 of group 1
    loads byte 8; the store of work-item 0 of group 0 to that byte is then
    reported and, being reported, leaves the cell as the load left it, still
    readable.  After the barrier of group 0 with the global fence the load
    of work-item 2 of group 1 sends nothing. *)
Lemma load_after_reported_store_and_barrier_silent :
  ∃ d0 d1 msg d3,
    memoryLoad_WI (Scenario.started false) (Scenario.globalMemory 0) (Scenario.WI 3)
      (Scenario.region + 8) 1 = Some (d0, [])
    ∧ memoryStore_WI d0 (Scenario.globalMemory 0) (Scenario.WI 0)
        (Scenario.region + 8) 1 [1] = Some (d1, [msg])
    ∧ cellAt d1 (Scenario.globalMemory 0) (Scenario.region + 8)
      = Some (loadedBy (Scenario.WI 3))
    ∧ getGroupIndex (getWorkGroup (Scenario.WI 2))
      ≠ getGroupIndex (getWorkGroup (Scenario.WI 0))
    ∧ memoryLoad_WI (workGroupBarrier d1 (Scenario.WG 0) CLK_GLOBAL_MEM_FENCE)
        (Scenario.globalMemory 0) (Scenario.WI 2) (Scenario.region + 8) 1
      = Some (d3, []).
Proof.
  eexists _, _, _, _. split; [vm_compute; reflexivity|].
  split; [vm_compute; reflexivity|]. split; [vm_compute; reflexivity|].
  split; [vm_compute; discriminate|]. vm_compute; reflexivity.
Qed.

(** C8, amended.  A work-item stores one byte to a region of global memory
    and the store is not itself reported, so that the cell records it.  A
    barrier with the global fence bit then
    leaves the cell with no work-item and open to atomics, but still with the
    group of the storing work-item and neither readable nor writable; the
    load of that byte by a work-item of another group is reported as a
    read-write race. *)
Theorem load_after_foreign_barrier_races
    (d : RaceDetector) (k : KernelInvocation) (memory : Memory)
    (w1 w2 : WorkItem) (g : WorkGroup) (flags address v : N)
    (cells : list State) (state : State) :
  m_kernelInvocation d = Some k →
  nonzero3 (getLocalSize k) = true →
  getAddressSpace memory = AddrSpaceGlobal →
  mem_id memory = mem_id (getGlobalMemory (m_context d)) →
  m_state d !! KEY memory address = Some cells →
  cells !! N.to_nat (EXTRACT_OFFSET address) = Some state →
  N.land flags CLK_GLOBAL_MEM_FENCE ≠ 0 →
  mem_id (getLocalMemory g) ≠ mem_id memory →
  getGroupIndex (getWorkGroup w2) ≠ getGroupIndex (getWorkGroup w1) →
  ∃ d1 msgs1,
    memoryStore_WI d memory w1 address 1 [v] = Some (d1, msgs1)
    ∧ (msgs1 = [] →
       let d2 := workGroupBarrier d1 g flags in
       m_state d2 !! KEY memory address ≫= (.!! N.to_nat (EXTRACT_OFFSET address))
       = Some {| instruction := getCurrentInstruction w1;
                 workItem := MINUS_ONE;
                 workGroup := getGroupIndex (getWorkGroup w1);
                 canAtomic := true;
                 canRead := false;
                 canWrite := false;
                 wasWorkItem := false |}
       ∧ ∃ d3 msg,
           memoryLoad_WI d2 memory w2 address 1 = Some (d3, [msg])
           ∧ msg_type msg = ReadWriteRace).
Proof.
  intros Hk Hnz Hsp Hid Hreg Hcell Hflag Hloc Hgrp.
  assert (Hnp : getAddressSpace memory ≠ AddrSpacePrivate) by (by rewrite Hsp).
  assert (Hlt : (N.to_nat (EXTRACT_OFFSET address) < length cells)%nat)
    by (apply lookup_lt_is_Some; eauto).
  unfold memoryStore_WI.
  rewrite (registerLoadStore_single d k memory address cells state Hk Hreg Hcell) by done.
  pose proof (conflict_store d memory address v state) as Hc.
  set (c := negb (canWrite state) && _) in Hc.
  destruct (c && otherEntity (Some w1) (Some (getWorkGroup w1)) state) eqn:Hrep.
  - (* the store is reported *)
    apply andb_prop in Hrep as [Hc1 Ho]. rewrite Hc1 in Hc.
    destruct (registerLoadStore_byte_report d k memory (Some w1)
                (Some (getWorkGroup w1)) address (Some [v]) 0 state Hk Hnz Hc Ho)
      as [second ->].
    simpl. eexists _, _. split; [reflexivity|]. discriminate.
  - (* the store is recorded *)
    rewrite (registerLoadStore_byte_update _ _ _ _ _ _ _ false _ c) by done.
    simpl. eexists _, _. split; [reflexivity|]. intros _.
    rewrite updateState_store_WI.
    set (state1 := Build_State _ _ _ _ _ _ _).
    set (d1 := setCell d _ cells _ state1).
    assert (Hreg2 : m_state (workGroupBarrier d1 g flags) !! KEY memory address
                    = Some (synchronizeState true
                              <$> <[N.to_nat (EXTRACT_OFFSET address) := state1]> cells)).
    { apply workGroupBarrier_global_lookup; try done.
      unfold d1, setCell. simpl. by rewrite lookup_insert_eq. }
    assert (Hcell2 : (synchronizeState true
                        <$> <[N.to_nat (EXTRACT_OFFSET address) := state1]> cells)
                     !! N.to_nat (EXTRACT_OFFSET address)
                     = Some (synchronizeState true state1)).
    { by rewrite list_lookup_fmap, list_lookup_insert_eq. }
    split.
    + rewrite Hreg2. simpl. by rewrite Hcell2.
    + unfold memoryLoad_WI.
      assert (Hk2 : m_kernelInvocation (workGroupBarrier d1 g flags) = Some k)
        by (by rewrite workGroupBarrier_kernelInvocation).
      rewrite (registerLoadStore_single _ k memory address _ _ Hk2 Hreg2 Hcell2)
        by done.
      destruct (registerLoadStore_byte_report (workGroupBarrier d1 g flags) k memory
                  (Some w2) (Some (getWorkGroup w2)) address None 0
                  (synchronizeState true state1) Hk2 Hnz)
        as [second ->].
      * reflexivity.
      * unfold otherEntity, workGroupIndex. simpl.
        apply negb_true_iff, N.eqb_neq. congruence.
      * simpl. eexists _, _. split; reflexivity.
Qed.

Lemma load_after_foreign_barrier_races_witness :
  ∃ d1 d3 msg,
    memoryStore_WI (Scenario.started false) (Scenario.globalMemory 0) (Scenario.WI 0)
      (Scenario.region + 8) 1 [1] = Some (d1, [])
    ∧ memoryLoad_WI (workGroupBarrier d1 (Scenario.WG 0) CLK_GLOBAL_MEM_FENCE)
        (Scenario.globalMemory 0) (Scenario.WI 2) (Scenario.region + 8) 1
      = Some (d3, [msg])
    ∧ msg_type msg = ReadWriteRace.
Proof.
  destruct (load_after_foreign_barrier_races
              (Scenario.started false) Scenario.kernel (Scenario.globalMemory 0)
              (Scenario.WI 0) (Scenario.WI 2) (Scenario.WG 0) CLK_GLOBAL_MEM_FENCE
              (Scenario.region + 8) 1 (replicate 16 State_ctor) State_ctor)
    as (d1 & msgs1 & Hstore & Hrest);
    try (vm_compute; congruence).
  assert (Hnil : msgs1 = []).
  { apply (f_equal (fmap snd)) in Hstore. vm_compute in Hstore. congruence. }
  subst msgs1. destruct (Hrest eq_refl) as (_ & d3 & msg & Hload & Htype).
  exists d1, d3, msg. done.
Defined.

(** ** Two stores of the same value *)

(** A one-byte store either is reported and leaves the cell, or records the
    storing work-item. *)
Lemma memoryStore_WI_single d k memory address cells state w v :
  m_kernelInvocation d = Some k →
  nonzero3 (getLocalSize k) = true →
  getAddressSpace memory ≠ AddrSpacePrivate →
  m_state d !! KEY memory address = Some cells →
  cells !! N.to_nat (EXTRACT_OFFSET address) = Some state →
  ∃ second,
    memoryStore_WI d memory w address 1 [v]
    = Some (if storeReported d memory address v w state
            then (setCell d (KEY memory address) cells
                    (N.to_nat (EXTRACT_OFFSET address)) state,
                  [raceMessage memory address (Some [v]) state second])
            else (setCell d (KEY memory address) cells
                    (N.to_nat (EXTRACT_OFFSET address)) (storedBy w),
                  [])).
Proof.
  intros Hk Hnz Hsp Hreg Hcell. unfold memoryStore_WI.
  rewrite (registerLoadStore_single d k memory address cells state Hk Hreg Hcell) by done.
  pose proof (conflict_store d memory address v state) as Hc.
  unfold storeReported. set (c := negb (canWrite state) && _) in *.
  destruct (c && otherEntity (Some w) (Some (getWorkGroup w)) state) eqn:Hrep.
  - apply andb_prop in Hrep as [Hc1 Ho]. rewrite Hc1 in Hc.
    destruct (registerLoadStore_byte_report d k memory (Some w)
                (Some (getWorkGroup w)) address (Some [v]) 0 state Hk Hnz Hc Ho)
      as [second ->].
    by exists second.
  - rewrite (registerLoadStore_byte_update _ _ _ _ _ _ _ false _ c) by done.
    simpl. rewrite updateState_store_WI. by exists EntityUnknown.
Qed.

Lemma setCell_region d key cells index state :
  m_state (setCell d key cells index state) !! key = Some (<[index := state]> cells).
Proof. unfold setCell. simpl. by rewrite lookup_insert_eq. Qed.

Lemma uniform_test_true (allow : bool) (p v : N) :
  negb allow || negb (p =? v) = true ↔ allow = false ∨ p ≠ v.
Proof.
  rewrite orb_true_iff, !negb_true_iff, N.eqb_neq. done.
Qed.




(** ** A store after an atomic access *)

Lemma memoryAtomic_single_outcome d k memory address cells state w op :
  m_kernelInvocation d = Some k →
  nonzero3 (getLocalSize k) = true →
  m_state d !! KEY memory address = Some cells →
  cells !! N.to_nat (EXTRACT_OFFSET address) = Some state →
  ∃ msgs,
    memoryAtomic d memory w op address 1
    = Some (setCell d (KEY memory address) cells (N.to_nat (EXTRACT_OFFSET address))
              (atomicState w state),
            msgs).
Proof.
  intros Hk Hnz Hreg Hcell.
  rewrite (memoryAtomic_single d memory address cells state Hreg Hcell).
  unfold memoryAtomic_byte.
  destruct (negb (canAtomic state) && negb (getGlobalIndex w =? workItem state)).
  - destruct (logRace_defined d k ReadWriteRace (getAddressSpace memory) address
                (workItem state) (workGroup state) (instruction state) Hk Hnz)
      as [second ->].
    simpl. by eexists.
  - simpl. by eexists.
Qed.

(** C2, as stated, fails: in the launch of [Scenario], work-item 0 of group 0
    does an atomic access to byte 12 and work-item 2 of group 1 then stores 0
    there while the memory holds 1.  The store is reported, as a write-write
    race. *)
Lemma store_after_atomic_is_write_write :
  ∃ d1 d2 msg,
    memoryAtomic (Scenario.started false) (Scenario.globalMemory 1) (Scenario.WI 0)
      AtomicAdd (Scenario.region + 12) 1 = Some (d1, [])
    ∧ memoryStore_WI d1 (Scenario.globalMemory 1) (Scenario.WI 2)
        (Scenario.region + 12) 1 [0] = Some (d2, [msg])
    ∧ msg_type msg = WriteWriteRace
    ∧ msg_type msg ≠ ReadWriteRace.
Proof.
  eexists _, _, _. split; [vm_compute; reflexivity|].
  split; [vm_compute; reflexivity|]. split; [reflexivity|discriminate].
Qed.

(** C2, amended.  After an atomic access of [w1] to a byte of a region of
    global memory, the store to that byte by another work-item [w2] of a value
    that is not the one in memory is reported, and the race is a write-write
    race, provided the byte was not already recorded as set by [w2] itself
    before the atomic access. *)
Theorem store_after_atomic_races
    (d : RaceDetector) (k : KernelInvocation) (memory : Memory)
    (w1 w2 : WorkItem) (op : AtomicOp) (address v : N)
    (cells : list State) (state : State) :
  m_kernelInvocation d = Some k →
  nonzero3 (getLocalSize k) = true →
  getAddressSpace memory = AddrSpaceGlobal →
  m_state d !! KEY memory address = Some cells →
  cells !! N.to_nat (EXTRACT_OFFSET address) = Some state →
  getGlobalIndex w1 ≠ getGlobalIndex w2 →
  (wasWorkItem state = true → workItem state ≠ getGlobalIndex w2) →
  getPointer memory address 0 ≠ v →
  ∃ d1 msgs1 d2 msg,
    memoryAtomic d memory w1 op address 1 = Some (d1, msgs1)
    ∧ memoryStore_WI d1 memory w2 address 1 [v] = Some (d2, [msg])
    ∧ msg_type msg = WriteWriteRace.
Proof.
  intros Hk Hnz Hsp Hreg Hcell Hne Hprev Hval.
  assert (Hnp : getAddressSpace memory ≠ AddrSpacePrivate) by (by rewrite Hsp).
  assert (Hlt : (N.to_nat (EXTRACT_OFFSET address) < length cells)%nat)
    by (apply lookup_lt_is_Some; eauto).
  destruct (memoryAtomic_single_outcome d k memory address cells state w1 op)
    as [msgs1 H1]; try done.
  set (d1 := setCell d _ cells _ (atomicState w1 state)) in H1.
  destruct (memoryStore_WI_single d1 k memory address
              (<[N.to_nat (EXTRACT_OFFSET address) := atomicState w1 state]> cells)
              (atomicState w1 state) w2 v)
    as [second2 H2]; try done.
  { apply setCell_region. }
  { by apply list_lookup_insert_eq. }
  assert (Hrep : storeReported d1 memory address v w2 (atomicState w1 state) = true).
  { unfold storeReported, otherEntity, workItemIndex. simpl.
    apply N.eqb_neq in Hval. rewrite Hval, orb_true_r. simpl.
    apply negb_true_iff, N.eqb_neq.
    destruct (wasWorkItem state); [by apply Hprev|done]. }
  rewrite Hrep in H2.
  eexists _, _, _, _. split; [exact H1|]. split; [exact H2|]. reflexivity.
Qed.

Lemma store_after_atomic_races_witness :
  ∃ d1 msgs1 d2 msg,
    memoryAtomic (Scenario.started false) (Scenario.globalMemory 1) (Scenario.WI 0)
      AtomicAdd (Scenario.region + 12) 1 = Some (d1, msgs1)
    ∧ memoryStore_WI d1 (Scenario.globalMemory 1) (Scenario.WI 2)
        (Scenario.region + 12) 1 [0] = Some (d2, [msg])
    ∧ msg_type msg = WriteWriteRace.
Proof.
  apply (store_after_atomic_races
           (Scenario.started false) Scenario.kernel (Scenario.globalMemory 1)
           (Scenario.WI 0) (Scenario.WI 2) AtomicAdd (Scenario.region + 12) 0
           (replicate 16 State_ctor) State_ctor);
    vm_compute; congruence.
Defined.

(** ** The loop of [registerLoadStore] over a range of bytes *)

Section loop.
Variables (d : RaceDetector) (k : KernelInvocation) (memory : Memory).
Variables (wItem : option WorkItem) (wGroup : option WorkGroup).
Variables (address : N) (storeData : option (list N)) (base : N).
Hypothesis Hkernel : m_kernelInvocation d = Some k.
Hypothesis Hlocal : nonzero3 (getLocalSize k) = true.

Lemma registerLoadStore_loop_outcome (n : nat) :
  ∀ offset race cells msgs cells' msgs',
    registerLoadStore_loop d memory wItem wGroup address storeData
      base n offset race cells msgs = Some (cells', msgs') →
    length cells' = length cells
    ∧ (∀ i, (i < N.to_nat (base + offset) ∨ N.to_nat (base + offset) + n ≤ i)%nat →
            cells' !! i = cells !! i)
    ∧ ∃ new, msgs' = msgs ++ new
            ∧ outcome d memory wItem wGroup address storeData base
                offset n race cells cells' new.
Proof using Type.
  induction n as [|n IH]; intros offset race cells msgs cells' msgs' Hrun.
  - simpl in Hrun. injection Hrun as <- <-.
    split; [done|]. split; [done|]. exists []. split; [by rewrite app_nil_r|].
    left. split; [done|]. intros j state Hj. lia.
  - simpl in Hrun.
    destruct (cells !! N.to_nat (base + offset)) as [state0|] eqn:Hcell0;
      [|done].
    simpl in Hrun. unfold registerLoadStore_byte in Hrun.
    destruct (conflict d memory address storeData offset state0) as [c|] eqn:Hc;
      [|done].
    simpl in Hrun.
    destruct (negb race && c && otherEntity wItem wGroup state0) eqn:Htest.
    + (* the cell is reported *)
      apply andb_prop in Htest as [Htest Hother].
      apply andb_prop in Htest as [Hrace ->].
      apply negb_true_iff in Hrace. subst race.
      destruct (logRace _ _ _ _ _ _ _) as [msg|] eqn:Hlog; [|done].
      simpl in Hrun. rewrite list_insert_id in Hrun by done.
      apply IH in Hrun as (Hlen & Hframe & new & -> & Hout).
      split; [done|]. split; [intros i Hi; apply Hframe; lia|].
      destruct Hout as [[-> Hall]|[? _]]; [|done].
      exists [msg]. split; [by rewrite <- app_assoc, app_nil_r|].
      right. split; [done|]. exists offset, state0, msg.
      split; [lia|]. split; [done|]. split; [done|]. split; [done|].
      split; [done|].
      split; [rewrite Hframe by lia; done|].
      intros j' state' Hj' Hne Hcell'.
      split; [|lia]. apply Hall; [lia|done].
    + (* the cell is updated *)
      simpl in Hrun. rewrite app_nil_r in Hrun.
      apply IH in Hrun as (Hlen & Hframe & new & -> & Hout).
      rewrite length_insert in Hlen.
      assert (Hlt : (N.to_nat (base + offset) < length cells)%nat)
        by (apply lookup_lt_is_Some; eauto).
      assert (Hhere : cells' !! N.to_nat (base + offset)
                      = Some (updateState wItem wGroup storeData state0)).
      { rewrite Hframe by lia. by apply list_lookup_insert_eq. }
      assert (Hnot : race = false
                     → ¬ reports d memory wItem wGroup address storeData offset state0).
      { intros -> [Hc' Ho']. rewrite Hc in Hc'. injection Hc' as ->.
        rewrite Ho' in Htest. done. }
      split; [done|].
      split; [intros i Hi; rewrite Hframe by lia;
              apply list_lookup_insert_ne; lia|].
      exists new. split; [done|].
      destruct Hout as [[-> Hall]|[-> (j & state & msg & Hj & Hcell & Hrep & Hmsg
                                       & -> & Hkeep & Hall)]].
      * left. split; [done|]. intros j state Hj Hcell.
        destruct (decide (j = offset)) as [->|Hne].
        -- rewrite Hcell0 in Hcell. injection Hcell as <-. done.
        -- apply Hall; [lia|]. rewrite list_lookup_insert_ne by lia. done.
      * rewrite list_lookup_insert_ne in Hcell by lia.
        right. split; [done|]. exists j, state, msg.
        split; [lia|]. do 5 (split; [done|]).
        intros j' state' Hj' Hne Hcell'.
        destruct (decide (j' = offset)) as [->|Hne'].
        -- rewrite Hcell0 in Hcell'. injection Hcell' as <-.
           split; [done|]. intros _. by apply Hnot.
        -- apply Hall; [lia|done|]. rewrite list_lookup_insert_ne by lia. done.
Qed.

(** The loop runs to its end when the range lies inside the array of cells
    and, for a store under the uniform-write test, inside the buffer. *)
Lemma registerLoadStore_loop_defined (n : nat) :
  ∀ offset race cells msgs,
    (N.to_nat (base + offset) + n ≤ length cells)%nat →
    (∀ data, storeData = Some data → m_allowUniformWrites d = true →
             (N.to_nat offset + n ≤ length data)%nat) →
    is_Some (registerLoadStore_loop d memory wItem wGroup address storeData
               base n offset race cells msgs).
Proof using Hkernel Hlocal.
  induction n as [|n IH]; intros offset race cells msgs Hcells Hdata; [by eexists|].
  simpl.
  destruct (lookup_lt_is_Some_2 cells (N.to_nat (base + offset))) as [state0 ->];
    [lia|].
  simpl. unfold registerLoadStore_byte.
  assert (Hc : ∃ c, conflict d memory address storeData offset state0 = Some c).
  { unfold conflict. destruct storeData as [data|]; [|by eexists].
    destruct (m_allowUniformWrites d) eqn:Hallow; [|by eexists].
    destruct (lookup_lt_is_Some_2 data (N.to_nat offset)) as [byte ->];
      [specialize (Hdata data eq_refl eq_refl); lia|].
    by eexists. }
  destruct Hc as [c ->]. simpl.
  destruct (negb race && c && otherEntity wItem wGroup state0).
  - destruct (logRace_defined d k (raceType storeData state0) (getAddressSpace memory)
                (size_t_add address offset) (workItem state0) (workGroup state0)
                (instruction state0) Hkernel Hlocal) as [second ->].
    simpl. apply IH.
    + rewrite length_insert. lia.
    + intros data Hd Ha. specialize (Hdata data Hd Ha). lia.
  - simpl. apply IH.
    + rewrite length_insert. lia.
    + intros data Hd Ha. specialize (Hdata data Hd Ha). lia.
Qed.
End loop.

Lemma logRace_fields d type addrSpace address lastWorkGroup lastWorkItem
    lastInstruction msg :
  logRace d type addrSpace address lastWorkGroup lastWorkItem lastInstruction
  = Some msg →
  msg_type msg = type ∧ msg_addrSpace msg = addrSpace ∧ msg_address msg = address
  ∧ msg_lastInstruction msg = lastInstruction.
Proof.
  unfold logRace. intros H.
  destruct (if negb (lastWorkItem =? MINUS_ONE) then _ else _) as [second|]; [|done].
  simpl in H. by injection H as <-.
Qed.

(** The whole access: it runs to its end, writes the cells back under the
    same key, leaves the cells outside the range alone and treats the range
    as [outcome] says. *)
Lemma registerLoadStore_outcome d k memory wItem wGroup address size storeData cells :
  m_kernelInvocation d = Some k →
  nonzero3 (getLocalSize k) = true →
  getAddressSpace memory ≠ AddrSpacePrivate →
  m_state d !! KEY memory address = Some cells →
  (N.to_nat (EXTRACT_OFFSET address) + N.to_nat size ≤ length cells)%nat →
  (∀ data, storeData = Some data → m_allowUniformWrites d = true →
           (N.to_nat size ≤ length data)%nat) →
  ∃ cells' msgs,
    registerLoadStore d memory wItem wGroup address size storeData
    = Some (with_state d (<[KEY memory address := cells']> (m_state d)), msgs)
    ∧ length cells' = length cells
    ∧ (∀ i, (i < N.to_nat (EXTRACT_OFFSET address)
             ∨ N.to_nat (EXTRACT_OFFSET address) + N.to_nat size ≤ i)%nat →
            cells' !! i = cells !! i)
    ∧ outcome d memory wItem wGroup address storeData (EXTRACT_OFFSET address)
        0 (N.to_nat size) false cells cells' msgs.
Proof.
  intros Hk Hnz Hsp Hreg Hcells Hdata. unfold registerLoadStore.
  rewrite Hk, decide_False by done.
  rewrite (StateMap_index_Some _ _ cells) by done.
  destruct (registerLoadStore_loop_defined d k memory wItem wGroup address storeData
              (EXTRACT_OFFSET address) Hk Hnz (N.to_nat size) 0 false cells [])
    as [[cells' msgs] Hrun].
  { rewrite N.add_0_r. lia. }
  { intros data Hd Ha. specialize (Hdata data Hd Ha). lia. }
  rewrite Hrun. simpl.
  apply registerLoadStore_loop_outcome in Hrun as (Hlen & Hframe & new & Hnew & Hout).
  simpl in Hnew. subst new. rewrite N.add_0_r in Hframe.
  exists cells', msgs. done.
Qed.

(** A load or a store sends at most one message. *)
Lemma registerLoadStore_at_most_one d k memory wItem wGroup address size storeData cells :
  m_kernelInvocation d = Some k →
  nonzero3 (getLocalSize k) = true →
  getAddressSpace memory ≠ AddrSpacePrivate →
  m_state d !! KEY memory address = Some cells →
  (N.to_nat (EXTRACT_OFFSET address) + N.to_nat size ≤ length cells)%nat →
  (∀ data, storeData = Some data → m_allowUniformWrites d = true →
           (N.to_nat size ≤ length data)%nat) →
  ∃ d' msgs,
    registerLoadStore d memory wItem wGroup address size storeData = Some (d', msgs)
    ∧ (length msgs ≤ 1)%nat.
Proof.
  intros Hk Hnz Hsp Hreg Hcells Hdata.
  destruct (registerLoadStore_outcome d k memory wItem wGroup address size storeData
              cells Hk Hnz Hsp Hreg Hcells Hdata)
    as (cells' & msgs & -> & _ & _ & Hout).
  eexists _, _. split; [done|].
  destruct Hout as [[-> _]|[_ (j & state & msg & _ & _ & _ & _ & -> & _)]];
    simpl; lia.
Qed.

(** C6.  A load or a store that runs over [size] bytes reports only a byte
    that conflicts with it and was set by another entity, and it does report
    as soon as there is such a byte.  The kind of the race is read-write for
    a load; for a store it is write-write when the reported byte was no
    longer readable, and read-write when it still was. *)
Theorem reported_race_kind
    (d : RaceDetector) (k : KernelInvocation) (memory : Memory)
    (wItem : option WorkItem) (wGroup : option WorkGroup)
    (address size : N) (storeData : option (list N)) (cells : list State) :
  m_kernelInvocation d = Some k →
  nonzero3 (getLocalSize k) = true →
  getAddressSpace memory ≠ AddrSpacePrivate →
  m_state d !! KEY memory address = Some cells →
  (N.to_nat (EXTRACT_OFFSET address) + N.to_nat size ≤ length cells)%nat →
  (∀ data, storeData = Some data → m_allowUniformWrites d = true →
           (N.to_nat size ≤ length data)%nat) →
  ∃ d' msgs,
    registerLoadStore d memory wItem wGroup address size storeData = Some (d', msgs)
    ∧ (∀ msg, msg ∈ msgs →
         ∃ j state,
           j < size
           ∧ cells !! N.to_nat (EXTRACT_OFFSET address + j) = Some state
           ∧ reports d memory wItem wGroup address storeData j state
           ∧ (∀ j' state',
                j' < j →
                cells !! N.to_nat (EXTRACT_OFFSET address + j') = Some state' →
                ¬ reports d memory wItem wGroup address storeData j' state')
           ∧ msg_address msg = size_t_add address j
           ∧ msg_type msg
             = match storeData with
               | None => ReadWriteRace
               | Some _ => if canRead state then ReadWriteRace else WriteWriteRace
               end)
    ∧ ((∃ j state,
          j < size
          ∧ cells !! N.to_nat (EXTRACT_OFFSET address + j) = Some state
          ∧ reports d memory wItem wGroup address storeData j state) →
       msgs ≠ []).
Proof.
  intros Hk Hnz Hsp Hreg Hcells Hdata.
  destruct (registerLoadStore_outcome d k memory wItem wGroup address size storeData
              cells Hk Hnz Hsp Hreg Hcells Hdata)
    as (cells' & msgs & -> & _ & _ & Hout).
  eexists _, _. split; [done|].
  destruct Hout as [[-> Hall]|[_ (j & state & msg & Hj & Hcell & Hrep & Hmsg & ->
                                 & _ & Hall)]].
  - split; [intros msg Hin; by apply elem_of_nil in Hin|].
    intros (j & state & Hj & Hcell & Hrep) _.
    destruct (Hall j state) as [_ Hnot]; [lia|done|]. by apply Hnot.
  - split; [|done].
    intros msg' Hin. apply list_elem_of_singleton in Hin as ->.
    exists j, state. split; [lia|]. split; [done|]. split; [done|].
    split.
    { intros j' state' Hj' Hcell'.
      destruct (Hall j' state') as [_ Hnot]; [lia|lia|done|]. by apply Hnot. }
    apply logRace_fields in Hmsg as (Htype & _ & Haddr & _).
    split; [done|]. rewrite Htype. unfold raceType, load.
    by destruct storeData.
Qed.

Lemma reported_race_kind_witness :
  ∃ d' msgs,
    memoryLoad_WI (default (Scenario.started false) afterFirstStore)
      (Scenario.globalMemory 0) (Scenario.WI 2) Scenario.region 2 = Some (d', msgs)
    ∧ (∀ msg, msg ∈ msgs → msg_type msg = ReadWriteRace)
    ∧ msgs ≠ [].
Proof.
  destruct (reported_race_kind
              (default (Scenario.started false) afterFirstStore) Scenario.kernel
              (Scenario.globalMemory 0) (Some (Scenario.WI 2))
              (Some (getWorkGroup (Scenario.WI 2))) Scenario.region 2 None
              (<[0%nat := storedBy (Scenario.WI 0)]> (replicate 16 State_ctor)))
    as (d' & msgs & Hrun & Hkind & Hsome);
    try (vm_compute; congruence).
  { vm_compute. lia. }
  exists d', msgs. split; [exact Hrun|]. split.
  - intros msg Hin.
    by destruct (Hkind msg Hin) as (j & state & _ & _ & _ & _ & _ & ->).
  - apply Hsome. exists 0, (storedBy (Scenario.WI 0)).
    split; [lia|]. split; [reflexivity|]. split; reflexivity.
Defined.

(** C10.  A load or a store that runs over [size] bytes either sends nothing
    and updates every byte of the range, or sends one message for one byte of
    the range; that byte keeps the state it had, and every other byte of the
    range is updated. *)
Theorem reported_byte_keeps_state
    (d : RaceDetector) (k : KernelInvocation) (memory : Memory)
    (wItem : option WorkItem) (wGroup : option WorkGroup)
    (address size : N) (storeData : option (list N)) (cells : list State) :
  m_kernelInvocation d = Some k →
  nonzero3 (getLocalSize k) = true →
  getAddressSpace memory ≠ AddrSpacePrivate →
  m_state d !! KEY memory address = Some cells →
  (N.to_nat (EXTRACT_OFFSET address) + N.to_nat size ≤ length cells)%nat →
  (∀ data, storeData = Some data → m_allowUniformWrites d = true →
           (N.to_nat size ≤ length data)%nat) →
  ∃ d' cells' msgs,
    registerLoadStore d memory wItem wGroup address size storeData = Some (d', msgs)
    ∧ m_state d' !! KEY memory address = Some cells'
    ∧ ((msgs = []
        ∧ ∀ j, j < size →
               cells' !! N.to_nat (EXTRACT_OFFSET address + j)
               = updateState wItem wGroup storeData
                   <$> cells !! N.to_nat (EXTRACT_OFFSET address + j))
       ∨ ∃ j msg,
           j < size
           ∧ msgs = [msg]
           ∧ msg_address msg = size_t_add address j
           ∧ cells' !! N.to_nat (EXTRACT_OFFSET address + j)
             = cells !! N.to_nat (EXTRACT_OFFSET address + j)
           ∧ ∀ j', j' < size → j' ≠ j →
                   cells' !! N.to_nat (EXTRACT_OFFSET address + j')
                   = updateState wItem wGroup storeData
                       <$> cells !! N.to_nat (EXTRACT_OFFSET address + j')).
Proof.
  intros Hk Hnz Hsp Hreg Hcells Hdata.
  destruct (registerLoadStore_outcome d k memory wItem wGroup address size storeData
              cells Hk Hnz Hsp Hreg Hcells Hdata)
    as (cells' & msgs & -> & _ & _ & Hout).
  assert (Hin : ∀ j, j < size →
                  ∃ state, cells !! N.to_nat (EXTRACT_OFFSET address + j) = Some state).
  { intros j Hj. apply lookup_lt_is_Some_2. lia. }
  eexists _, cells', msgs. split; [done|].
  split; [simpl; by rewrite lookup_insert_eq|].
  destruct Hout as [[-> Hall]|[_ (j & state & msg & Hj & Hcell & Hrep & Hmsg & ->
                                 & Hkeep & Hall)]].
  - left. split; [done|]. intros j Hj.
    destruct (Hin j Hj) as [state Hcell]. rewrite Hcell. simpl.
    apply Hall; [lia|done].
  - right. exists j, msg. split; [lia|]. split; [done|].
    apply logRace_fields in Hmsg as (_ & _ & Haddr & _).
    split; [done|]. split; [by rewrite Hkeep, Hcell|].
    intros j' Hj' Hne. destruct (Hin j' Hj') as [state' Hcell'].
    rewrite Hcell'. simpl. apply Hall; [lia|done|done].
Qed.

Lemma reported_byte_keeps_state_witness :
  let d := default (Scenario.started false) afterFirstStore in
  let cells := <[0%nat := storedBy (Scenario.WI 0)]> (replicate 16 State_ctor) in
  let update :=
    updateState (Some (Scenario.WI 2)) (Some (Scenario.WG 1)) (Some [1; 2]) in
  ∃ d' cells' msgs,
    memoryStore_WI d (Scenario.globalMemory 0) (Scenario.WI 2) Scenario.region 2 [1; 2]
    = Some (d', msgs)
    ∧ m_state d' !! (1, 1) = Some cells'
    ∧ ((msgs = []
        ∧ ∀ j, j < 2 → cells' !! N.to_nat (0 + j) = update <$> cells !! N.to_nat (0 + j))
       ∨ ∃ j msg,
           j < 2
           ∧ msgs = [msg]
           ∧ msg_address msg = size_t_add Scenario.region j
           ∧ cells' !! N.to_nat (0 + j) = cells !! N.to_nat (0 + j)
           ∧ ∀ j', j' < 2 → j' ≠ j →
                   cells' !! N.to_nat (0 + j') = update <$> cells !! N.to_nat (0 + j')).
Proof.
  intros d cells update.
  apply (reported_byte_keeps_state d Scenario.kernel
           (Scenario.globalMemory 0) (Some (Scenario.WI 2))
           (Some (getWorkGroup (Scenario.WI 2))) Scenario.region 2 (Some [1; 2]) cells);
    try (vm_compute; congruence).
  - vm_compute. lia.
  - intros data [= <-] _. vm_compute. lia.
Defined.

(** * Further properties of the callbacks *)

(** ** Allocation and deallocation *)

Lemma RaceDetector_eq (d1 d2 : RaceDetector) :
  m_context d1 = m_context d2 →
  m_kernelInvocation d1 = m_kernelInvocation d2 →
  m_allowUniformWrites d1 = m_allowUniformWrites d2 →
  m_state d1 = m_state d2 →
  d1 = d2.
Proof. destruct d1, d2. simpl. by intros -> -> -> ->. Qed.

Lemma memoryDeallocated_state d memory address :
  getAddressSpace memory ≠ AddrSpacePrivate →
  m_state (memoryDeallocated d memory address)
  = delete (KEY memory address) (m_state d).
Proof.
  intros Hsp. unfold memoryDeallocated, StateMap_index.
  rewrite decide_False by done. simpl.
  destruct (m_state d !! KEY memory address) as [cells|] eqn:Hreg; simpl; [done|].
  rewrite delete_insert_eq. by rewrite delete_id.
Qed.

(** X1.  Deallocation of a region of non-private memory removes its key and
    no other one; for a region that was never allocated the detector comes
    back as it was, the entry made by indexing the map being erased again. *)
Theorem memoryDeallocated_removes_only_region
    (d : RaceDetector) (memory : Memory) (address : N) :
  getAddressSpace memory ≠ AddrSpacePrivate →
  m_state (memoryDeallocated d memory address) !! KEY memory address = None
  ∧ (∀ key, key ≠ KEY memory address →
            m_state (memoryDeallocated d memory address) !! key = m_state d !! key)
  ∧ (m_state d !! KEY memory address = None →
     memoryDeallocated d memory address = d).
Proof.
  intros Hsp. rewrite memoryDeallocated_state by done.
  split; [apply lookup_delete_eq|]. split.
  - intros key Hne. by apply lookup_delete_ne.
  - intros Hnone.
    assert (Hst : m_state (memoryDeallocated d memory address) = m_state d)
      by (rewrite memoryDeallocated_state by done; by apply delete_id).
    unfold memoryDeallocated in *. rewrite decide_False in * by done.
    simpl in Hst. rewrite Hst. apply with_state_id.
Qed.

Lemma memoryDeallocated_removes_only_region_witness :
  m_state (memoryDeallocated (Scenario.started false) (Scenario.globalMemory 0)
             Scenario.region) !! (1, 1) = None
  ∧ memoryDeallocated (Scenario.started false) (Scenario.globalMemory 0) 5
    = Scenario.started false.
Proof.
  destruct (memoryDeallocated_removes_only_region (Scenario.started false)
              (Scenario.globalMemory 0) Scenario.region) as (Hgone & _ & _);
    [discriminate|].
  destruct (memoryDeallocated_removes_only_region (Scenario.started false)
              (Scenario.globalMemory 0) 5) as (_ & _ & Hsame);
    [discriminate|].
  split; [exact Hgone|]. apply Hsame. reflexivity.
Defined.

(** X2.  Allocating a region whose key is free and deallocating it again,
    at any address of the same buffer, gives back the detector as it was. *)
Theorem allocate_deallocate_round_trip
    (d : RaceDetector) (memory : Memory) (address address' size : N) :
  getAddressSpace memory ≠ AddrSpacePrivate →
  EXTRACT_BUFFER address' = EXTRACT_BUFFER address →
  m_state d !! KEY memory address = None →
  memoryDeallocated (memoryAllocated d memory address size) memory address' = d.
Proof.
  intros Hsp Hbuf Hnone.
  assert (Hkey : KEY memory address' = KEY memory address)
    by (unfold KEY; by rewrite Hbuf).
  apply RaceDetector_eq;
    try (unfold memoryDeallocated, memoryAllocated;
         rewrite !decide_False by done; reflexivity).
  rewrite memoryDeallocated_state by done. unfold memoryAllocated.
  rewrite decide_False by done. simpl.
  rewrite Hkey, delete_insert_eq. by apply delete_id.
Qed.

Lemma allocate_deallocate_round_trip_witness :
  memoryDeallocated
    (memoryAllocated (Scenario.started false) (Scenario.globalMemory 0)
       (N.shiftl 2 NUM_ADDRESS_BITS) 8)
    (Scenario.globalMemory 0) (N.shiftl 2 NUM_ADDRESS_BITS + 3)
  = Scenario.started false.
Proof.
  apply (allocate_deallocate_round_trip (Scenario.started false)
           (Scenario.globalMemory 0) (N.shiftl 2 NUM_ADDRESS_BITS)
           (N.shiftl 2 NUM_ADDRESS_BITS + 3) 8);
    [discriminate|reflexivity|reflexivity].
Defined.

(** ** Synchronisation *)

Lemma synchronizeState_idempotent workGroupOnly state :
  synchronizeState workGroupOnly (synchronizeState workGroupOnly state)
  = synchronizeState workGroupOnly state.
Proof. by destruct workGroupOnly. Qed.

(** X3.  [synchronize] is idempotent, with either value of its flag. *)
Theorem synchronize_idempotent
    (d : RaceDetector) (memory : Memory) (workGroupOnly : bool) :
  synchronize (synchronize d memory workGroupOnly) memory workGroupOnly
  = synchronize d memory workGroupOnly.
Proof.
  apply RaceDetector_eq; try reflexivity.
  apply map_eq. intros key. rewrite synchronize_lookup.
  rewrite synchronize_lookup.
  destruct (m_state d !! key) as [cells|]; [|done]. simpl. f_equal.
  unfold synchronizeEntry. destruct (decide (key.1 = mem_id memory)); [|done].
  rewrite <- list_fmap_compose. apply list_fmap_ext.
  intros i state _. apply synchronizeState_idempotent.
Qed.

(** X4.  [synchronize] neither adds nor removes a region and keeps the size
    of every region; the regions of any other memory keep their cells. *)
Theorem synchronize_keeps_regions
    (d : RaceDetector) (memory : Memory) (workGroupOnly : bool) (key : N * N) :
  length <$> m_state (synchronize d memory workGroupOnly) !! key
  = length <$> m_state d !! key
  ∧ (key.1 ≠ mem_id memory →
     m_state (synchronize d memory workGroupOnly) !! key = m_state d !! key).
Proof.
  split; [|apply synchronize_other_memory].
  rewrite synchronize_lookup.
  destruct (m_state d !! key) as [cells|]; [|done]. simpl. f_equal.
  unfold synchronizeEntry. destruct (decide (key.1 = mem_id memory)); [|done].
  apply length_fmap.
Qed.

Lemma synchronize_keeps_regions_witness :
  m_state (synchronize (Scenario.started false) (Scenario.localMemory 0) false)
    !! (1, 1)
  = m_state (Scenario.started false) !! (1, 1).
Proof.
  apply (synchronize_keeps_regions (Scenario.started false)
           (Scenario.localMemory 0) false (1, 1)).
  discriminate.
Defined.

(** ** Loads and stores over a range *)

(** When no cell of the range passes the race test, nothing is sent and
    every cell of the range is updated. *)
Lemma registerLoadStore_no_report d k memory wItem wGroup address size storeData cells :
  m_kernelInvocation d = Some k →
  nonzero3 (getLocalSize k) = true →
  getAddressSpace memory ≠ AddrSpacePrivate →
  m_state d !! KEY memory address = Some cells →
  (N.to_nat (EXTRACT_OFFSET address) + N.to_nat size ≤ length cells)%nat →
  (∀ data, storeData = Some data → m_allowUniformWrites d = true →
           (N.to_nat size ≤ length data)%nat) →
  (∀ j state,
     j < size →
     cells !! N.to_nat (EXTRACT_OFFSET address + j) = Some state →
     ¬ reports d memory wItem wGroup address storeData j state) →
  ∃ cells',
    registerLoadStore d memory wItem wGroup address size storeData
    = Some (with_state d (<[KEY memory address := cells']> (m_state d)), [])
    ∧ length cells' = length cells
    ∧ (∀ i, (i < N.to_nat (EXTRACT_OFFSET address)
             ∨ N.to_nat (EXTRACT_OFFSET address) + N.to_nat size ≤ i)%nat →
            cells' !! i = cells !! i)
    ∧ (∀ j state,
         j < size →
         cells !! N.to_nat (EXTRACT_OFFSET address + j) = Some state →
         cells' !! N.to_nat (EXTRACT_OFFSET address + j)
         = Some (updateState wItem wGroup storeData state)).
Proof.
  intros Hk Hnz Hsp Hreg Hcells Hdata Hnone.
  destruct (registerLoadStore_outcome d k memory wItem wGroup address size storeData
              cells Hk Hnz Hsp Hreg Hcells Hdata)
    as (cells' & msgs & Hrun & Hlen & Hframe & Hout).
  destruct Hout as [[-> Hall]|[_ (j & state & msg & Hj & Hcell & Hrep & _)]].
  - exists cells'. split; [done|]. split; [done|]. split; [done|].
    intros j state Hj Hcell. apply Hall; [lia|done].
  - exfalso. apply (Hnone j state); [lia|done|done].
Qed.

(** X5.  A load or a store that stays inside its region touches nothing but
    the cells of its range: the region keeps its size, the cells before and
    after the range keep their state, every other region is as it was, and so
    are the current kernel, the context and the uniform-write switch. *)
Theorem registerLoadStore_frame
    (d : RaceDetector) (k : KernelInvocation) (memory : Memory)
    (wItem : option WorkItem) (wGroup : option WorkGroup)
    (address size : N) (storeData : option (list N)) (cells : list State) :
  m_kernelInvocation d = Some k →
  nonzero3 (getLocalSize k) = true →
  getAddressSpace memory ≠ AddrSpacePrivate →
  m_state d !! KEY memory address = Some cells →
  (N.to_nat (EXTRACT_OFFSET address) + N.to_nat size ≤ length cells)%nat →
  (∀ data, storeData = Some data → m_allowUniformWrites d = true →
           (N.to_nat size ≤ length data)%nat) →
  ∃ d' cells' msgs,
    registerLoadStore d memory wItem wGroup address size storeData = Some (d', msgs)
    ∧ m_state d' !! KEY memory address = Some cells'
    ∧ length cells' = length cells
    ∧ (∀ i, (i < N.to_nat (EXTRACT_OFFSET address)
             ∨ N.to_nat (EXTRACT_OFFSET address) + N.to_nat size ≤ i)%nat →
            cells' !! i = cells !! i)
    ∧ (∀ key, key ≠ KEY memory address → m_state d' !! key = m_state d !! key)
    ∧ m_kernelInvocation d' = m_kernelInvocation d
    ∧ m_context d' = m_context d
    ∧ m_allowUniformWrites d' = m_allowUniformWrites d.
Proof.
  intros Hk Hnz Hsp Hreg Hcells Hdata.
  destruct (registerLoadStore_outcome d k memory wItem wGroup address size storeData
              cells Hk Hnz Hsp Hreg Hcells Hdata)
    as (cells' & msgs & Hrun & Hlen & Hframe & _).
  eexists _, cells', msgs. split; [exact Hrun|].
  split; [simpl; by rewrite lookup_insert_eq|].
  split; [done|]. split; [done|].
  split; [intros key Hne; simpl; by rewrite lookup_insert_ne|]. done.
Qed.

Lemma registerLoadStore_frame_witness :
  ∃ d' cells' msgs,
    memoryStore_WI (Scenario.started false) (Scenario.globalMemory 0) (Scenario.WI 1)
      (Scenario.region + 4) 2 [1; 2] = Some (d', msgs)
    ∧ m_state d' !! (1, 1) = Some cells'
    ∧ length cells' = 16%nat
    ∧ cells' !! 3%nat = Some State_ctor
    ∧ cells' !! 6%nat = Some State_ctor.
Proof.
  destruct (registerLoadStore_frame (Scenario.started false) Scenario.kernel
              (Scenario.globalMemory 0) (Some (Scenario.WI 1))
              (Some (getWorkGroup (Scenario.WI 1))) (Scenario.region + 4) 2
              (Some [1; 2]) (replicate 16 State_ctor))
    as (d' & cells' & msgs & Hrun & Hreg & Hlen & Hframe & _);
    try (vm_compute; congruence).
  { vm_compute. lia. }
  { intros data [= <-] _. vm_compute. lia. }
  exists d', cells', msgs. split; [exact Hrun|]. split; [exact Hreg|].
  split; [exact Hlen|]. split.
  - rewrite Hframe; [reflexivity|]. left. vm_compute. lia.
  - rewrite Hframe; [reflexivity|]. right. vm_compute. lia.
Defined.

(** The loop stops in undefined behaviour as soon as a cell of its range
    lies outside the array. *)
Lemma registerLoadStore_loop_out_of_bounds d memory wItem wGroup address storeData
    base (n : nat) :
  ∀ offset race cells msgs,
    (0 < n)%nat →
    (length cells < N.to_nat (base + offset) + n)%nat →
    registerLoadStore_loop d memory wItem wGroup address storeData
      base n offset race cells msgs = None.
Proof.
  induction n as [|n IH]; intros offset race cells msgs Hpos Hout; [lia|].
  simpl.
  destruct (cells !! N.to_nat (base + offset)) as [state0|] eqn:Hcell0; [|done].
  simpl.
  destruct (registerLoadStore_byte _ _ _ _ _ _ _ _ _) as [[[race' state'] new]|];
    [|done].
  simpl. apply lookup_lt_Some in Hcell0.
  apply IH; [lia|]. rewrite length_insert. lia.
Qed.

(** X6.  With a current kernel and a store buffer that covers the access, a
    load or a store to non-private memory is well defined exactly when it is
    empty or its whole range lies inside the array of its region; the array
    of a region that was never allocated has no cell. *)
Theorem registerLoadStore_defined_iff
    (d : RaceDetector) (k : KernelInvocation) (memory : Memory)
    (wItem : option WorkItem) (wGroup : option WorkGroup)
    (address size : N) (storeData : option (list N)) :
  m_kernelInvocation d = Some k →
  nonzero3 (getLocalSize k) = true →
  getAddressSpace memory ≠ AddrSpacePrivate →
  (∀ data, storeData = Some data → m_allowUniformWrites d = true →
           (N.to_nat size ≤ length data)%nat) →
  is_Some (registerLoadStore d memory wItem wGroup address size storeData)
  ↔ size = 0
    ∨ (N.to_nat (EXTRACT_OFFSET address) + N.to_nat size
       ≤ length (default [] (m_state d !! KEY memory address)))%nat.
Proof.
  intros Hk Hnz Hsp Hdata.
  assert (Hloop : ∀ cells,
            is_Some (registerLoadStore_loop d memory wItem wGroup address storeData
                       (EXTRACT_OFFSET address) (N.to_nat size) 0 false cells [])
            ↔ size = 0
              ∨ (N.to_nat (EXTRACT_OFFSET address) + N.to_nat size ≤ length cells)%nat).
  { intros cells. split.
    - intros Hsome. destruct (decide (size = 0)) as [|Hpos]; [by left|]. right.
      destruct (decide (N.to_nat (EXTRACT_OFFSET address) + N.to_nat size
                        ≤ length cells)%nat) as [|Hout]; [done|].
      rewrite registerLoadStore_loop_out_of_bounds in Hsome.
      + by destruct Hsome.
      + lia.
      + rewrite N.add_0_r. lia.
    - intros [->|Hin]; [by eexists|].
      apply (registerLoadStore_loop_defined d k); try done.
      rewrite N.add_0_r. lia. }
  unfold registerLoadStore, StateMap_index. rewrite Hk, decide_False by done.
  destruct (m_state d !! KEY memory address) as [cells|];
    [specialize (Hloop cells)|specialize (Hloop [])];
    simpl; simpl in Hloop; rewrite <- Hloop;
    destruct (registerLoadStore_loop _ _ _ _ _ _ _ _ _ _ _ _) as [[cells' msgs]|];
    simpl; split; intros [? ?]; by eauto.
Qed.

Lemma registerLoadStore_defined_iff_witness :
  memoryLoad_WI (Scenario.started false) (Scenario.globalMemory 0) (Scenario.WI 0)
    (Scenario.region + 15) 2 = None
  ∧ memoryLoad_WI (Scenario.started false) (Scenario.globalMemory 0) (Scenario.WI 0)
      (N.shiftl 2 NUM_ADDRESS_BITS) 1 = None.
Proof.
  split.
  - apply eq_None_not_Some. intros Hsome.
    apply (registerLoadStore_defined_iff (Scenario.started false) Scenario.kernel
             (Scenario.globalMemory 0) (Some (Scenario.WI 0))
             (Some (getWorkGroup (Scenario.WI 0))) (Scenario.region + 15) 2 None)
      in Hsome; try (vm_compute; congruence).
    destruct Hsome as [Hsome|Hsome]; vm_compute in Hsome; [discriminate|lia].
  - apply eq_None_not_Some. intros Hsome.
    apply (registerLoadStore_defined_iff (Scenario.started false) Scenario.kernel
             (Scenario.globalMemory 0) (Some (Scenario.WI 0))
             (Some (getWorkGroup (Scenario.WI 0))) (N.shiftl 2 NUM_ADDRESS_BITS) 1 None)
      in Hsome; try (vm_compute; congruence).
    destruct Hsome as [Hsome|Hsome]; vm_compute in Hsome; [discriminate|lia].
Defined.

(** X7.  An access of size 0 visits no cell.  On a region that exists it
    gives back the detector as it was; on a buffer that has no region, a load
    or store that passes the two tests at its entry, and any atomic access,
    leaves an entry without cells under the key of the buffer. *)
Theorem zero_size_access
    (d : RaceDetector) (memory : Memory) (wItem : option WorkItem)
    (wGroup : option WorkGroup) (w : WorkItem) (op : AtomicOp) (address : N)
    (storeData : option (list N)) :
  (is_Some (m_state d !! KEY memory address) →
   registerLoadStore d memory wItem wGroup address 0 storeData = Some (d, [])
   ∧ memoryAtomic d memory w op address 0 = Some (d, []))
  ∧ (m_state d !! KEY memory address = None →
     memoryAtomic d memory w op address 0
     = Some (with_state d (<[KEY memory address := []]> (m_state d)), [])
     ∧ (is_Some (m_kernelInvocation d) →
        getAddressSpace memory ≠ AddrSpacePrivate →
        registerLoadStore d memory wItem wGroup address 0 storeData
        = Some (with_state d (<[KEY memory address := []]> (m_state d)), []))).
Proof.
  split.
  - intros [cells Hreg].
    unfold registerLoadStore, memoryAtomic.
    rewrite (StateMap_index_Some _ _ cells) by done.
    change (N.to_nat 0) with 0%nat. simpl.
    rewrite insert_id, with_state_id by done.
    split; [|done].
    destruct (m_kernelInvocation d); [|done].
    by destruct (decide (getAddressSpace memory = AddrSpacePrivate)).
  - intros Hnone. unfold registerLoadStore, memoryAtomic.
    rewrite StateMap_index_None by done.
    change (N.to_nat 0) with 0%nat. simpl. rewrite insert_insert_eq.
    split; [done|]. intros [k ->] Hsp. by rewrite decide_False.
Qed.

(** X8.  With uniform writes allowed, a store that writes to every byte of
    its range the value the memory already holds there is never reported,
    whatever the shadow cells say. *)
Theorem uniform_store_never_reported
    (d : RaceDetector) (k : KernelInvocation) (memory : Memory)
    (wItem : option WorkItem) (wGroup : option WorkGroup)
    (address size : N) (data : list N) (cells : list State) :
  m_kernelInvocation d = Some k →
  nonzero3 (getLocalSize k) = true →
  getAddressSpace memory ≠ AddrSpacePrivate →
  m_state d !! KEY memory address = Some cells →
  (N.to_nat (EXTRACT_OFFSET address) + N.to_nat size ≤ length cells)%nat →
  m_allowUniformWrites d = true →
  (∀ j, j < size → data !! N.to_nat j = Some (getPointer memory address j)) →
  ∃ d', registerLoadStore d memory wItem wGroup address size (Some data)
        = Some (d', []).
Proof.
  intros Hk Hnz Hsp Hreg Hcells Hallow Hsame.
  destruct (registerLoadStore_no_report d k memory wItem wGroup address size
              (Some data) cells Hk Hnz Hsp Hreg Hcells)
    as (cells' & Hrun & _).
  - intros data' [= <-] _.
    destruct (decide (size = 0)) as [->|Hpos]; [simpl; lia|].
    specialize (Hsame (size - 1)). apply lookup_lt_Some in Hsame; lia.
  - intros j state Hj Hcell [Hc _]. unfold conflict in Hc.
    rewrite Hallow, (Hsame j Hj) in Hc. simpl in Hc.
    rewrite N.eqb_refl, andb_false_r in Hc. discriminate.
  - by eexists.
Qed.

Lemma uniform_store_never_reported_witness :
  ∃ d',
    memoryStore_WI (default (Scenario.started false) afterFirstStore)
      (Scenario.globalMemory 170) (Scenario.WI 2) Scenario.region 1 [170]
    = Some (d', []).
Proof.
  apply (uniform_store_never_reported
           (default (Scenario.started false) afterFirstStore) Scenario.kernel
           (Scenario.globalMemory 170) (Some (Scenario.WI 2))
           (Some (getWorkGroup (Scenario.WI 2))) Scenario.region 1 [170]
           (<[0%nat := storedBy (Scenario.WI 0)]> (replicate 16 State_ctor)));
    try (vm_compute; congruence).
  - vm_compute. lia.
  - intros j Hj. assert (j = 0) as -> by lia. reflexivity.
Defined.

(** Cells of the range of an access, as indices of the array. *)
Lemma range_index (base size : N) (i : nat) :
  (N.to_nat base ≤ i < N.to_nat base + N.to_nat size)%nat →
  ∃ j, j < size ∧ i = N.to_nat (base + j).
Proof. intros Hi. exists (N.of_nat i - base). lia. Qed.

(** X9.  Loads do not race with loads: a load over cells that are all still
    readable is not reported, whoever loads, and leaves all of them
    readable. *)
Theorem loads_of_readable_cells_not_reported
    (d : RaceDetector) (k : KernelInvocation) (memory : Memory)
    (wItem : option WorkItem) (wGroup : option WorkGroup)
    (address size : N) (cells : list State) :
  m_kernelInvocation d = Some k →
  nonzero3 (getLocalSize k) = true →
  getAddressSpace memory ≠ AddrSpacePrivate →
  m_state d !! KEY memory address = Some cells →
  (N.to_nat (EXTRACT_OFFSET address) + N.to_nat size ≤ length cells)%nat →
  Forall (λ state, canRead state = true) cells →
  ∃ d' cells',
    registerLoadStore d memory wItem wGroup address size None = Some (d', [])
    ∧ m_state d' !! KEY memory address = Some cells'
    ∧ Forall (λ state, canRead state = true) cells'.
Proof.
  intros Hk Hnz Hsp Hreg Hcells Hread.
  rewrite Forall_lookup in Hread.
  destruct (registerLoadStore_no_report d k memory wItem wGroup address size
              None cells Hk Hnz Hsp Hreg Hcells)
    as (cells' & Hrun & Hlen & Hframe & Hupd).
  - discriminate.
  - intros j state Hj Hcell [Hc _]. rewrite conflict_load in Hc.
    rewrite (Hread _ _ Hcell) in Hc. discriminate.
  - eexists _, cells'. split; [exact Hrun|].
    split; [simpl; by rewrite lookup_insert_eq|].
    apply Forall_lookup. intros i state' Hcell'.
    destruct (decide (N.to_nat (EXTRACT_OFFSET address) ≤ i
                      < N.to_nat (EXTRACT_OFFSET address) + N.to_nat size)%nat)
      as [Hin|Hout].
    + destruct (range_index _ _ _ Hin) as (j & Hj & ->).
      destruct (lookup_lt_is_Some_2 cells (N.to_nat (EXTRACT_OFFSET address + j)))
        as [state Hcell]; [lia|].
      rewrite (Hupd j state Hj Hcell) in Hcell'. injection Hcell' as <-.
      simpl. rewrite (Hread _ _ Hcell). reflexivity.
    + rewrite Hframe in Hcell' by lia. by apply (Hread i).
Qed.

Lemma loads_of_readable_cells_not_reported_witness :
  ∃ d' cells',
    memoryLoad_WI (Scenario.started false) (Scenario.globalMemory 0) (Scenario.WI 3)
      Scenario.region 16 = Some (d', [])
    ∧ m_state d' !! (1, 1) = Some cells'
    ∧ Forall (λ state, canRead state = true) cells'.
Proof.
  apply (loads_of_readable_cells_not_reported (Scenario.started false)
           Scenario.kernel (Scenario.globalMemory 0) (Some (Scenario.WI 3))
           (Some (getWorkGroup (Scenario.WI 3))) Scenario.region 16
           (replicate 16 State_ctor));
    try (vm_compute; congruence).
  - vm_compute. lia.
  - apply Forall_replicate. reflexivity.
Defined.

(** ** Accesses after an allocation or a full synchronisation *)

(** A cell that is readable and writable passes no race test. *)
Lemma open_cell_not_reported d memory wItem wGroup address storeData offset state :
  canRead state = true →
  canWrite state = true →
  ¬ reports d memory wItem wGroup address storeData offset state.
Proof.
  intros Hr Hw [Hc _]. unfold conflict in Hc. rewrite Hr, Hw in Hc.
  destruct storeData as [data|]; simpl in Hc; [|discriminate].
  destruct (m_allowUniformWrites d); [|discriminate].
  destruct (data !! N.to_nat offset); simpl in Hc; discriminate.
Qed.

Lemma registerLoadStore_open_cells d k memory wItem wGroup address size storeData cells :
  m_kernelInvocation d = Some k →
  nonzero3 (getLocalSize k) = true →
  getAddressSpace memory ≠ AddrSpacePrivate →
  m_state d !! KEY memory address = Some cells →
  (N.to_nat (EXTRACT_OFFSET address) + N.to_nat size ≤ length cells)%nat →
  (∀ data, storeData = Some data → m_allowUniformWrites d = true →
           (N.to_nat size ≤ length data)%nat) →
  Forall (λ state, canRead state = true ∧ canWrite state = true) cells →
  ∃ cells',
    registerLoadStore d memory wItem wGroup address size storeData
    = Some (with_state d (<[KEY memory address := cells']> (m_state d)), [])
    ∧ length cells' = length cells
    ∧ (∀ j state,
         j < size →
         cells !! N.to_nat (EXTRACT_OFFSET address + j) = Some state →
         cells' !! N.to_nat (EXTRACT_OFFSET address + j)
         = Some (updateState wItem wGroup storeData state)).
Proof.
  intros Hk Hnz Hsp Hreg Hcells Hdata Hopen. rewrite Forall_lookup in Hopen.
  destruct (registerLoadStore_no_report d k memory wItem wGroup address size
              storeData cells Hk Hnz Hsp Hreg Hcells Hdata)
    as (cells' & Hrun & Hlen & _ & Hupd).
  - intros j state Hj Hcell. destruct (Hopen _ _ Hcell).
    by apply open_cell_not_reported.
  - by exists cells'.
Qed.

(** X10.  The first load or store to a region that has just been allocated
    is not reported, and each cell of its range records the access on top of
    the constructor's state. *)
Theorem first_access_to_fresh_region_not_reported
    (d : RaceDetector) (k : KernelInvocation) (memory : Memory)
    (wItem : option WorkItem) (wGroup : option WorkGroup)
    (address0 rsize address size : N) (storeData : option (list N)) :
  m_kernelInvocation d = Some k →
  nonzero3 (getLocalSize k) = true →
  getAddressSpace memory ≠ AddrSpacePrivate →
  EXTRACT_BUFFER address = EXTRACT_BUFFER address0 →
  (N.to_nat (EXTRACT_OFFSET address) + N.to_nat size ≤ N.to_nat rsize)%nat →
  (∀ data, storeData = Some data → m_allowUniformWrites d = true →
           (N.to_nat size ≤ length data)%nat) →
  ∃ d' cells',
    registerLoadStore (memoryAllocated d memory address0 rsize) memory wItem wGroup
      address size storeData = Some (d', [])
    ∧ m_state d' !! KEY memory address = Some cells'
    ∧ length cells' = N.to_nat rsize
    ∧ ∀ j, j < size →
           cells' !! N.to_nat (EXTRACT_OFFSET address + j)
           = Some (updateState wItem wGroup storeData State_ctor).
Proof.
  intros Hk Hnz Hsp Hbuf Hin Hdata.
  assert (Hkey : KEY memory address0 = KEY memory address)
    by (unfold KEY; by rewrite Hbuf).
  set (d0 := memoryAllocated d memory address0 rsize).
  assert (Hreg : m_state d0 !! KEY memory address
                 = Some (replicate (N.to_nat rsize) State_ctor)).
  { unfold d0, memoryAllocated. rewrite decide_False by done. simpl.
    by rewrite Hkey, lookup_insert_eq. }
  assert (Hk0 : m_kernelInvocation d0 = Some k).
  { unfold d0, memoryAllocated. by rewrite decide_False. }
  assert (Ha0 : m_allowUniformWrites d0 = m_allowUniformWrites d).
  { unfold d0, memoryAllocated. by rewrite decide_False. }
  destruct (registerLoadStore_open_cells d0 k memory wItem wGroup address size
              storeData (replicate (N.to_nat rsize) State_ctor) Hk0 Hnz Hsp Hreg)
    as (cells' & Hrun & Hlen & Hupd).
  - rewrite length_replicate. lia.
  - rewrite Ha0. exact Hdata.
  - apply Forall_replicate. done.
  - eexists _, cells'. split; [exact Hrun|].
    split; [simpl; by rewrite lookup_insert_eq|].
    split; [by rewrite Hlen, length_replicate|].
    intros j Hj. apply Hupd; [done|]. apply lookup_replicate_2. lia.
Qed.

Lemma first_access_to_fresh_region_not_reported_witness :
  ∃ d' cells',
    memoryStore_WI
      (memoryAllocated (default (Scenario.started false) afterFirstStore)
         (Scenario.globalMemory 0) Scenario.region 4)
      (Scenario.globalMemory 0) (Scenario.WI 3) (Scenario.region + 0) 1 [9]
    = Some (d', [])
    ∧ m_state d' !! (1, 1) = Some cells'
    ∧ length cells' = 4%nat.
Proof.
  destruct (first_access_to_fresh_region_not_reported
              (default (Scenario.started false) afterFirstStore) Scenario.kernel
              (Scenario.globalMemory 0) (Some (Scenario.WI 3))
              (Some (getWorkGroup (Scenario.WI 3)))
              Scenario.region 4 (Scenario.region + 0) 1 (Some [9]))
    as (d' & cells' & Hrun & Hreg & Hlen & _);
    try (vm_compute; congruence).
  { vm_compute. lia. }
  { intros data [= <-] _. vm_compute. lia. }
  by exists d', cells'.
Defined.

Lemma synchronizeState_full_open state :
  canRead (synchronizeState false state) = true
  ∧ canWrite (synchronizeState false state) = true.
Proof. done. Qed.

(** X11.  Nothing of one kernel is held against the next one in global
    memory: after [kernelEnd] and the next [kernelBegin], a load or a store
    that stays inside a region of global memory is not reported, whatever the
    cells of the region recorded before. *)
Theorem no_report_across_kernels
    (d : RaceDetector) (ended : option KernelInvocation) (k' : KernelInvocation)
    (memory : Memory) (wItem : option WorkItem) (wGroup : option WorkGroup)
    (address size : N) (storeData : option (list N)) (cells : list State) :
  nonzero3 (getLocalSize k') = true →
  getAddressSpace memory ≠ AddrSpacePrivate →
  mem_id memory = mem_id (getGlobalMemory (m_context d)) →
  m_state d !! KEY memory address = Some cells →
  (N.to_nat (EXTRACT_OFFSET address) + N.to_nat size ≤ length cells)%nat →
  (∀ data, storeData = Some data → m_allowUniformWrites d = true →
           (N.to_nat size ≤ length data)%nat) →
  ∃ d',
    registerLoadStore (kernelBegin (kernelEnd d ended) (Some k')) memory wItem wGroup
      address size storeData = Some (d', []).
Proof.
  intros Hnz Hsp Hid Hreg Hcells Hdata.
  set (d2 := kernelBegin (kernelEnd d ended) (Some k')).
  assert (Hreg2 : m_state d2 !! KEY memory address
                  = Some (synchronizeState false <$> cells)).
  { change (m_state d2)
      with (m_state (synchronize d (getGlobalMemory (m_context d)) false)).
    by apply synchronize_same_memory. }
  destruct (registerLoadStore_open_cells d2 k' memory wItem wGroup address size
              storeData (synchronizeState false <$> cells) eq_refl Hnz Hsp Hreg2)
    as (cells' & Hrun & _).
  - by rewrite length_fmap.
  - exact Hdata.
  - apply Forall_fmap, Forall_true. intros state. apply synchronizeState_full_open.
  - by eexists.
Qed.

Lemma no_report_across_kernels_witness :
  ∃ d',
    memoryStore_WI
      (kernelBegin
         (kernelEnd (default (Scenario.started false) afterFirstStore)
            (Some Scenario.kernel))
         (Some Scenario.kernel))
      (Scenario.globalMemory 170) (Scenario.WI 2) Scenario.region 1 [187]
    = Some (d', []).
Proof.
  apply (no_report_across_kernels
           (default (Scenario.started false) afterFirstStore)
           (Some Scenario.kernel) Scenario.kernel
           (Scenario.globalMemory 170) (Some (Scenario.WI 2))
           (Some (getWorkGroup (Scenario.WI 2))) Scenario.region 1 (Some [187])
           (<[0%nat := storedBy (Scenario.WI 0)]> (replicate 16 State_ctor)));
    try (vm_compute; congruence).
  - vm_compute. lia.
  - intros data [= <-] _. vm_compute. lia.
Defined.

(** After a barrier with the local fence bit, the cells of the local memory
    of the group are readable and writable. *)
Lemma workGroupBarrier_local_lookup d wGroup flags key cells :
  N.land flags CLK_LOCAL_MEM_FENCE ≠ 0 →
  key.1 = mem_id (getLocalMemory wGroup) →
  m_state d !! key = Some cells →
  ∃ cells',
    m_state (workGroupBarrier d wGroup flags) !! key = Some cells'
    ∧ length cells' = length cells
    ∧ Forall (λ state, canRead state = true ∧ canWrite state = true) cells'.
Proof.
  intros Hl Hk Hc. unfold workGroupBarrier.
  apply N.eqb_neq in Hl. rewrite Hl. simpl.
  assert (H1 : m_state (synchronize d (getLocalMemory wGroup) false) !! key
               = Some (synchronizeState false <$> cells))
    by (by apply synchronize_same_memory).
  destruct (negb (N.land flags CLK_GLOBAL_MEM_FENCE =? 0)).
  - rewrite synchronize_lookup, H1. simpl. eexists. split; [reflexivity|].
    unfold synchronizeEntry. case_decide.
    + split; [by rewrite !length_fmap|].
      apply Forall_fmap, Forall_fmap, Forall_true. done.
    + split; [by rewrite length_fmap|]. apply Forall_fmap, Forall_true. done.
  - rewrite H1. eexists. split; [reflexivity|].
    split; [by rewrite length_fmap|]. apply Forall_fmap, Forall_true. done.
Qed.

(** X12.  After a barrier of a group with the local fence bit, a load or a
    store that stays inside a region of the local memory of that group is not
    reported, whatever was recorded before the barrier. *)
Theorem no_report_after_local_barrier
    (d : RaceDetector) (k : KernelInvocation) (g : WorkGroup) (flags : N)
    (memory : Memory) (wItem : option WorkItem) (wGroup : option WorkGroup)
    (address size : N) (storeData : option (list N)) (cells : list State) :
  m_kernelInvocation d = Some k →
  nonzero3 (getLocalSize k) = true →
  getAddressSpace memory ≠ AddrSpacePrivate →
  N.land flags CLK_LOCAL_MEM_FENCE ≠ 0 →
  mem_id memory = mem_id (getLocalMemory g) →
  m_state d !! KEY memory address = Some cells →
  (N.to_nat (EXTRACT_OFFSET address) + N.to_nat size ≤ length cells)%nat →
  (∀ data, storeData = Some data → m_allowUniformWrites d = true →
           (N.to_nat size ≤ length data)%nat) →
  ∃ d',
    registerLoadStore (workGroupBarrier d g flags) memory wItem wGroup
      address size storeData = Some (d', []).
Proof.
  intros Hk Hnz Hsp Hflag Hid Hreg Hcells Hdata.
  destruct (workGroupBarrier_local_lookup d g flags (KEY memory address) cells)
    as (cells2 & Hreg2 & Hlen2 & Hopen); try done.
  destruct (registerLoadStore_open_cells (workGroupBarrier d g flags) k memory
              wItem wGroup address size storeData cells2)
    as (cells' & Hrun & _); try done.
  - by rewrite workGroupBarrier_kernelInvocation.
  - by rewrite Hlen2.
  - intros data Hd Ha. apply (Hdata data Hd).
    revert Ha. unfold workGroupBarrier.
    destruct (negb (N.land flags CLK_LOCAL_MEM_FENCE =? 0));
      destruct (negb (N.land flags CLK_GLOBAL_MEM_FENCE =? 0)); done.
  - by eexists.
Qed.

Lemma no_report_after_local_barrier_witness :
  ∃ d',
    memoryLoad_WI (workGroupBarrier afterLocalStore (Scenario.WG 0) CLK_LOCAL_MEM_FENCE)
      (Scenario.localMemory 0) (Scenario.WI 1) Scenario.region 1
    = Some (d', []).
Proof.
  apply (no_report_after_local_barrier afterLocalStore Scenario.kernel
           (Scenario.WG 0) CLK_LOCAL_MEM_FENCE (Scenario.localMemory 0)
           (Some (Scenario.WI 1)) (Some (getWorkGroup (Scenario.WI 1)))
           Scenario.region 1 None
           (<[0%nat := storedBy (Scenario.WI 0)]> (replicate 8 State_ctor)));
    try (vm_compute; congruence).
  vm_compute. lia.
Defined.

(** ** The same-entity exception *)

(** X13.  A work-item is never reported on cells that record it: loads and
    stores of a work-item over cells that were all set by a work-item with
    its own global index send nothing. *)
Theorem own_cells_not_reported
    (d : RaceDetector) (k : KernelInvocation) (memory : Memory) (w : WorkItem)
    (address size : N) (storeData : option (list N)) (cells : list State) :
  m_kernelInvocation d = Some k →
  nonzero3 (getLocalSize k) = true →
  getAddressSpace memory ≠ AddrSpacePrivate →
  m_state d !! KEY memory address = Some cells →
  (N.to_nat (EXTRACT_OFFSET address) + N.to_nat size ≤ length cells)%nat →
  (∀ data, storeData = Some data → m_allowUniformWrites d = true →
           (N.to_nat size ≤ length data)%nat) →
  (∀ j state,
     j < size →
     cells !! N.to_nat (EXTRACT_OFFSET address + j) = Some state →
     wasWorkItem state = true ∧ workItem state = getGlobalIndex w) →
  ∃ d',
    registerLoadStore d memory (Some w) (Some (getWorkGroup w)) address size storeData
    = Some (d', []).
Proof.
  intros Hk Hnz Hsp Hreg Hcells Hdata Hown.
  destruct (registerLoadStore_no_report d k memory (Some w) (Some (getWorkGroup w))
              address size storeData cells Hk Hnz Hsp Hreg Hcells Hdata)
    as (cells' & Hrun & _).
  - intros j state Hj Hcell [_ Ho]. destruct (Hown j state Hj Hcell) as [Hwas Hwi].
    unfold otherEntity, workItemIndex in Ho. rewrite Hwas, Hwi, N.eqb_refl in Ho.
    discriminate.
  - by eexists.
Qed.

Lemma own_cells_not_reported_witness :
  ∃ d',
    memoryLoad_WI (default (Scenario.started false) afterFirstStore)
      (Scenario.globalMemory 170) (Scenario.WI 0) Scenario.region 1
    = Some (d', []).
Proof.
  apply (own_cells_not_reported
           (default (Scenario.started false) afterFirstStore) Scenario.kernel
           (Scenario.globalMemory 170) (Scenario.WI 0) Scenario.region 1 None
           (<[0%nat := storedBy (Scenario.WI 0)]> (replicate 16 State_ctor)));
    try (vm_compute; congruence).
  - vm_compute. lia.
  - intros j state Hj. assert (j = 0) as -> by lia. by intros [= <-].
Defined.

(** X14.  After a barrier with the global fence bit, the work-items of the
    group recorded in a cell are no longer held apart: a load or a store by
    a work-item or by the group itself is not reported on cells that record
    its group, whichever work-item had set them. *)
Theorem no_report_within_group_after_global_barrier
    (d : RaceDetector) (k : KernelInvocation) (g : WorkGroup) (flags : N)
    (memory : Memory) (wItem : option WorkItem) (accessor : WorkGroup)
    (address size : N) (storeData : option (list N)) (cells : list State) :
  m_kernelInvocation d = Some k →
  nonzero3 (getLocalSize k) = true →
  getAddressSpace memory ≠ AddrSpacePrivate →
  N.land flags CLK_GLOBAL_MEM_FENCE ≠ 0 →
  mem_id memory = mem_id (getGlobalMemory (m_context d)) →
  mem_id (getLocalMemory g) ≠ mem_id memory →
  m_state d !! KEY memory address = Some cells →
  (N.to_nat (EXTRACT_OFFSET address) + N.to_nat size ≤ length cells)%nat →
  (∀ data, storeData = Some data → m_allowUniformWrites d = true →
           (N.to_nat size ≤ length data)%nat) →
  (∀ j state,
     j < size →
     cells !! N.to_nat (EXTRACT_OFFSET address + j) = Some state →
     workGroup state = getGroupIndex accessor) →
  ∃ d',
    registerLoadStore (workGroupBarrier d g flags) memory wItem (Some accessor)
      address size storeData = Some (d', []).
Proof.
  intros Hk Hnz Hsp Hflag Hid Hloc Hreg Hcells Hdata Hgroup.
  assert (Hreg2 : m_state (workGroupBarrier d g flags) !! KEY memory address
                  = Some (synchronizeState true <$> cells))
    by (by apply workGroupBarrier_global_lookup).
  destruct (registerLoadStore_no_report (workGroupBarrier d g flags) k memory
              wItem (Some accessor) address size storeData
              (synchronizeState true <$> cells))
    as (cells' & Hrun & _); try done.
  - by rewrite workGroupBarrier_kernelInvocation.
  - by rewrite length_fmap.
  - intros data Hd Ha. apply (Hdata data Hd).
    revert Ha. unfold workGroupBarrier.
    destruct (negb (N.land flags CLK_LOCAL_MEM_FENCE =? 0));
      destruct (negb (N.land flags CLK_GLOBAL_MEM_FENCE =? 0)); done.
  - intros j state2 Hj Hcell2 [_ Ho].
    rewrite list_lookup_fmap in Hcell2.
    destruct (cells !! N.to_nat (EXTRACT_OFFSET address + j)) as [state|] eqn:Hcell;
      [|done].
    injection Hcell2 as <-.
    unfold otherEntity, workGroupIndex in Ho. simpl in Ho.
    rewrite (Hgroup j state Hj Hcell), N.eqb_refl in Ho. discriminate.
  - by eexists.
Qed.

Lemma no_report_within_group_after_global_barrier_witness :
  ∃ d',
    memoryLoad_WI
      (workGroupBarrier (default (Scenario.started false) afterFirstStore)
         (Scenario.WG 0) CLK_GLOBAL_MEM_FENCE)
      (Scenario.globalMemory 170) (Scenario.WI 1) Scenario.region 1
    = Some (d', []).
Proof.
  apply (no_report_within_group_after_global_barrier
           (default (Scenario.started false) afterFirstStore) Scenario.kernel
           (Scenario.WG 0) CLK_GLOBAL_MEM_FENCE
           (Scenario.globalMemory 170) (Some (Scenario.WI 1))
           (getWorkGroup (Scenario.WI 1)) Scenario.region 1 None
           (<[0%nat := storedBy (Scenario.WI 0)]> (replicate 16 State_ctor)));
    try (vm_compute; congruence).
  - vm_compute. lia.
  - intros j state Hj. assert (j = 0) as -> by lia. by intros [= <-].
Defined.

(** ** A store after loads of two work-items *)

Lemma registerLoadStore_single_outcome d k memory wItem wGroup address storeData
    cells state c :
  m_kernelInvocation d = Some k →
  nonzero3 (getLocalSize k) = true →
  getAddressSpace memory ≠ AddrSpacePrivate →
  m_state d !! KEY memory address = Some cells →
  cells !! N.to_nat (EXTRACT_OFFSET address) = Some state →
  conflict d memory address storeData 0 state = Some c →
  ∃ second,
    registerLoadStore d memory wItem wGroup address 1 storeData
    = Some (if c && otherEntity wItem wGroup state
            then (setCell d (KEY memory address) cells
                    (N.to_nat (EXTRACT_OFFSET address)) state,
                  [raceMessage memory address storeData state second])
            else (setCell d (KEY memory address) cells
                    (N.to_nat (EXTRACT_OFFSET address))
                    (updateState wItem wGroup storeData state),
                  [])).
Proof.
  intros Hk Hnz Hsp Hreg Hcell Hc.
  rewrite (registerLoadStore_single d k memory address cells state Hk Hreg Hcell) by done.
  destruct (c && otherEntity wItem wGroup state) eqn:Hrep.
  - apply andb_prop in Hrep as [-> Ho].
    destruct (registerLoadStore_byte_report d k memory wItem wGroup address
                storeData 0 state Hk Hnz Hc Ho) as [second ->].
    by exists second.
  - rewrite (registerLoadStore_byte_update _ _ _ _ _ _ _ false _ c) by done.
    by exists EntityUnknown.
Qed.

Lemma updateState_load_open w state :
  canRead state = true →
  canWrite state = true →
  updateState (Some w) (Some (getWorkGroup w)) None state = loadedBy w.
Proof. intros Hr Hw. unfold updateState, loadedBy. simpl. by rewrite Hr, Hw. Qed.

(** X15.  Only the first reader of a byte is recorded.  After loads of a
    readable and writable byte by [w1] and then by [w2], the cell records
    [w1]; a store by [w1] that is not filtered as a uniform write is then not
    reported although [w2] has read the byte, and the same store by [w2] is
    reported as a read-write race with the instruction of [w1]. *)
Theorem store_after_two_loads
    (d : RaceDetector) (k : KernelInvocation) (memory : Memory)
    (w1 w2 : WorkItem) (address v : N) (cells : list State) (state : State) :
  m_kernelInvocation d = Some k →
  nonzero3 (getLocalSize k) = true →
  getAddressSpace memory ≠ AddrSpacePrivate →
  m_state d !! KEY memory address = Some cells →
  cells !! N.to_nat (EXTRACT_OFFSET address) = Some state →
  canRead state = true →
  canWrite state = true →
  getGlobalIndex w1 ≠ getGlobalIndex w2 →
  m_allowUniformWrites d = false ∨ getPointer memory address 0 ≠ v →
  ∃ d1 d2,
    memoryLoad_WI d memory w1 address 1 = Some (d1, [])
    ∧ memoryLoad_WI d1 memory w2 address 1 = Some (d2, [])
    ∧ cellAt d2 memory address = Some (loadedBy w1)
    ∧ (∃ d3, memoryStore_WI d2 memory w1 address 1 [v] = Some (d3, []))
    ∧ (∃ d3 msg,
         memoryStore_WI d2 memory w2 address 1 [v] = Some (d3, [msg])
         ∧ msg_type msg = ReadWriteRace
         ∧ msg_lastInstruction msg = getCurrentInstruction w1).
Proof.
  intros Hk Hnz Hsp Hreg Hcell Hr Hw Hne Htest.
  assert (Hlt : (N.to_nat (EXTRACT_OFFSET address) < length cells)%nat)
    by (apply lookup_lt_is_Some; eauto).
  set (i := N.to_nat (EXTRACT_OFFSET address)) in *.
  (* the load of w1 *)
  destruct (registerLoadStore_single_outcome d k memory (Some w1)
              (Some (getWorkGroup w1)) address None cells state
              (negb (canRead state)) Hk Hnz Hsp Hreg Hcell eq_refl)
    as [second1 H1].
  rewrite Hr in H1. simpl in H1. rewrite updateState_load_open in H1 by done.
  set (d1 := setCell d (KEY memory address) cells i (loadedBy w1)) in H1.
  (* the load of w2 *)
  destruct (registerLoadStore_single_outcome d1 k memory (Some w2)
              (Some (getWorkGroup w2)) address None (<[i := loadedBy w1]> cells)
              (loadedBy w1) false Hk Hnz Hsp)
    as [second2 H2].
  { apply setCell_region. }
  { by apply list_lookup_insert_eq. }
  { reflexivity. }
  simpl in H2.
  change (updateState (Some w2) (Some (getWorkGroup w2)) None (loadedBy w1))
    with (loadedBy w1) in H2.
  set (cells1 := <[i := loadedBy w1]> cells) in H2.
  set (d2 := setCell d1 (KEY memory address) cells1 i (loadedBy w1)) in H2.
  assert (Hlt1 : (i < length cells1)%nat) by (unfold cells1; by rewrite length_insert).
  assert (Hreg2 : m_state d2 !! KEY memory address = Some (<[i := loadedBy w1]> cells1))
    by apply setCell_region.
  assert (Hcell2 : <[i := loadedBy w1]> cells1 !! i = Some (loadedBy w1))
    by (by apply list_lookup_insert_eq).
  assert (Hfilter : negb (m_allowUniformWrites d)
                    || negb (getPointer memory address 0 =? v) = true)
    by (by apply uniform_test_true).
  exists d1, d2. split; [exact H1|]. split; [exact H2|].
  split; [unfold cellAt; rewrite Hreg2; simpl; exact Hcell2|].
  split.
  - destruct (memoryStore_WI_single d2 k memory address _ _ w1 v Hk Hnz Hsp Hreg2 Hcell2)
      as [second3 H3].
    assert (Hrep : storeReported d2 memory address v w1 (loadedBy w1) = false).
    { unfold storeReported, otherEntity, workItemIndex. simpl.
      rewrite N.eqb_refl. simpl. by rewrite andb_false_r. }
    rewrite Hrep in H3. by eexists.
  - destruct (memoryStore_WI_single d2 k memory address _ _ w2 v Hk Hnz Hsp Hreg2 Hcell2)
      as [second3 H3].
    assert (Hrep : storeReported d2 memory address v w2 (loadedBy w1) = true).
    { unfold storeReported, otherEntity, workItemIndex.
      change (m_allowUniformWrites d2) with (m_allowUniformWrites d).
      rewrite Hfilter. simpl. by apply negb_true_iff, N.eqb_neq. }
    rewrite Hrep in H3. eexists _, _. split; [exact H3|]. done.
Qed.

Lemma store_after_two_loads_witness :
  ∃ d1 d2,
    memoryLoad_WI (Scenario.started false) (Scenario.globalMemory 0) (Scenario.WI 0)
      Scenario.region 1 = Some (d1, [])
    ∧ memoryLoad_WI d1 (Scenario.globalMemory 0) (Scenario.WI 2) Scenario.region 1
      = Some (d2, [])
    ∧ (∃ d3, memoryStore_WI d2 (Scenario.globalMemory 0) (Scenario.WI 0)
               Scenario.region 1 [9] = Some (d3, [])).
Proof.
  destruct (store_after_two_loads (Scenario.started false) Scenario.kernel
              (Scenario.globalMemory 0) (Scenario.WI 0) (Scenario.WI 2)
              Scenario.region 9 (replicate 16 State_ctor) State_ctor)
    as (d1 & d2 & H1 & H2 & _ & H3 & _);
    try (vm_compute; congruence).
  { right. vm_compute. congruence. }
  by exists d1, d2.
Defined.

(** ** Atomic accesses over a range *)

Lemma memoryAtomic_byte_outcome d k memory w address state :
  m_kernelInvocation d = Some k →
  nonzero3 (getLocalSize k) = true →
  ∃ new,
    memoryAtomic_byte d memory w address state = Some (atomicState w state, new)
    ∧ length new = (if atomicConflict w state then 1 else 0)%nat
    ∧ Forall (λ msg, msg_type msg = ReadWriteRace ∧ msg_address msg = address) new.
Proof.
  intros Hk Hnz. unfold memoryAtomic_byte, atomicConflict.
  destruct (negb (canAtomic state) && negb (getGlobalIndex w =? workItem state)).
  - destruct (logRace_defined d k ReadWriteRace (getAddressSpace memory) address
                (workItem state) (workGroup state) (instruction state) Hk Hnz)
      as [second ->].
    simpl. eexists. split; [reflexivity|]. split; [done|].
    apply Forall_singleton. done.
  - simpl. exists []. done.
Qed.

Lemma memoryAtomic_loop_outcome d k memory w address base (n : nat) :
  m_kernelInvocation d = Some k →
  nonzero3 (getLocalSize k) = true →
  ∀ offset cells msgs,
    (N.to_nat (base + offset) + n ≤ length cells)%nat →
    ∃ cells' new,
      memoryAtomic_loop d memory w address base n offset cells msgs
      = Some (cells', msgs ++ new)
      ∧ length cells' = length cells
      ∧ (∀ i, (i < N.to_nat (base + offset) ∨ N.to_nat (base + offset) + n ≤ i)%nat →
              cells' !! i = cells !! i)
      ∧ (∀ j state,
           offset ≤ j < offset + N.of_nat n →
           cells !! N.to_nat (base + j) = Some state →
           cells' !! N.to_nat (base + j) = Some (atomicState w state))
      ∧ length new
        = length (filter (λ state, atomicConflict w state = true)
                    (take n (drop (N.to_nat (base + offset)) cells)))
      ∧ Forall (λ msg, msg_type msg = ReadWriteRace ∧ msg_address msg = address) new.
Proof.
  intros Hk Hnz. induction n as [|n IH]; intros offset cells msgs Hin.
  - exists cells, []. simpl. rewrite app_nil_r.
    split; [done|]. split; [done|]. split; [done|].
    split; [intros j state Hj; lia|]. done.
  - simpl.
    destruct (lookup_lt_is_Some_2 cells (N.to_nat (base + offset))) as [state0 Hcell0];
      [lia|].
    rewrite Hcell0. simpl.
    destruct (memoryAtomic_byte_outcome d k memory w address state0 Hk Hnz)
      as (new0 & -> & Hlen0 & Hall0).
    simpl.
    destruct (IH (offset + 1)
                (<[N.to_nat (base + offset) := atomicState w state0]> cells)
                (msgs ++ new0))
      as (cells' & new & -> & Hlen & Hframe & Hupd & Hcount & Hall).
    { rewrite length_insert. lia. }
    rewrite length_insert in Hlen.
    exists cells', (new0 ++ new). split; [by rewrite app_assoc|].
    split; [done|].
    split; [intros i Hi; rewrite Hframe by lia; apply list_lookup_insert_ne; lia|].
    split; [|split].
    + intros j state Hj Hcell.
      destruct (decide (j = offset)) as [->|Hne].
      * rewrite Hcell0 in Hcell. injection Hcell as <-.
        rewrite Hframe by lia. apply list_lookup_insert_eq. lia.
      * apply Hupd; [lia|]. rewrite list_lookup_insert_ne by lia. done.
    + rewrite (drop_S cells state0 (N.to_nat (base + offset))) by done.
      simpl. rewrite length_app, Hcount, Hlen0.
      replace (N.to_nat (base + (offset + 1))) with (S (N.to_nat (base + offset)))
        by lia.
      rewrite drop_insert_lt by lia.
      rewrite filter_cons. destruct (atomicConflict w state0).
      * rewrite decide_True by done. done.
      * rewrite decide_False by done. done.
    + by apply Forall_app.
Qed.

Lemma filter_none {A} (P : A → Prop) `{∀ x, Decision (P x)} (l : list A) :
  Forall (λ x, ¬ P x) l → filter P l = [].
Proof.
  induction 1 as [|x l Hx _ IH]; [done|].
  rewrite filter_cons, decide_False by done. exact IH.
Qed.

(** The whole atomic access, inside its region. *)
Lemma memoryAtomic_outcome d k memory w op address size cells :
  m_kernelInvocation d = Some k →
  nonzero3 (getLocalSize k) = true →
  m_state d !! KEY memory address = Some cells →
  (N.to_nat (EXTRACT_OFFSET address) + N.to_nat size ≤ length cells)%nat →
  ∃ cells' msgs,
    memoryAtomic d memory w op address size
    = Some (with_state d (<[KEY memory address := cells']> (m_state d)), msgs)
    ∧ length cells' = length cells
    ∧ (∀ i, (i < N.to_nat (EXTRACT_OFFSET address)
             ∨ N.to_nat (EXTRACT_OFFSET address) + N.to_nat size ≤ i)%nat →
            cells' !! i = cells !! i)
    ∧ (∀ j state,
         j < size →
         cells !! N.to_nat (EXTRACT_OFFSET address + j) = Some state →
         cells' !! N.to_nat (EXTRACT_OFFSET address + j) = Some (atomicState w state))
    ∧ length msgs
      = length (filter (λ state, atomicConflict w state = true)
                  (take (N.to_nat size) (drop (N.to_nat (EXTRACT_OFFSET address)) cells)))
    ∧ Forall (λ msg, msg_type msg = ReadWriteRace ∧ msg_address msg = address) msgs.
Proof.
  intros Hk Hnz Hreg Hin. unfold memoryAtomic.
  rewrite (StateMap_index_Some _ _ cells) by done.
  destruct (memoryAtomic_loop_outcome d k memory w address (EXTRACT_OFFSET address)
              (N.to_nat size) Hk Hnz 0 cells [])
    as (cells' & new & -> & Hlen & Hframe & Hupd & Hcount & Hall).
  { rewrite N.add_0_r. lia. }
  rewrite N.add_0_r in *. simpl.
  exists cells', new. split; [done|]. split; [done|]. split; [done|].
  split; [|done]. intros j state Hj Hcell. apply Hupd; [lia|done].
Qed.

(** X16.  An atomic access that stays inside its region sends one message
    for each byte of its range that is closed to atomics and records another
    work-item, all of them read-write races at the address of the access
    itself, and it marks every byte of the range. *)
Theorem memoryAtomic_reports_per_byte
    (d : RaceDetector) (k : KernelInvocation) (memory : Memory) (w : WorkItem)
    (op : AtomicOp) (address size : N) (cells : list State) :
  m_kernelInvocation d = Some k →
  nonzero3 (getLocalSize k) = true →
  m_state d !! KEY memory address = Some cells →
  (N.to_nat (EXTRACT_OFFSET address) + N.to_nat size ≤ length cells)%nat →
  ∃ d' cells' msgs,
    memoryAtomic d memory w op address size = Some (d', msgs)
    ∧ m_state d' !! KEY memory address = Some cells'
    ∧ (∀ j, j < size →
            cells' !! N.to_nat (EXTRACT_OFFSET address + j)
            = atomicState w <$> cells !! N.to_nat (EXTRACT_OFFSET address + j))
    ∧ length msgs
      = length (filter (λ state, atomicConflict w state = true)
                  (take (N.to_nat size) (drop (N.to_nat (EXTRACT_OFFSET address)) cells)))
    ∧ Forall (λ msg, msg_type msg = ReadWriteRace ∧ msg_address msg = address) msgs.
Proof.
  intros Hk Hnz Hreg Hin.
  destruct (memoryAtomic_outcome d k memory w op address size cells Hk Hnz Hreg Hin)
    as (cells' & msgs & Hrun & _ & _ & Hupd & Hcount & Hall).
  eexists _, cells', msgs. split; [exact Hrun|].
  split; [simpl; by rewrite lookup_insert_eq|].
  split; [|done].
  intros j Hj.
  destruct (lookup_lt_is_Some_2 cells (N.to_nat (EXTRACT_OFFSET address + j)))
    as [state Hcell]; [lia|].
  rewrite Hcell. simpl. by apply Hupd.
Qed.

Lemma memoryAtomic_reports_per_byte_witness :
  ∃ d' msgs,
    memoryAtomic (default (Scenario.started false) afterFirstStore)
      (Scenario.globalMemory 170) (Scenario.WI 1) AtomicInc Scenario.region 4
    = Some (d', msgs)
    ∧ length msgs = 1%nat.
Proof.
  destruct (memoryAtomic_reports_per_byte
              (default (Scenario.started false) afterFirstStore) Scenario.kernel
              (Scenario.globalMemory 170) (Scenario.WI 1) AtomicInc Scenario.region 4
              (<[0%nat := storedBy (Scenario.WI 0)]> (replicate 16 State_ctor)))
    as (d' & cells' & msgs & Hrun & _ & _ & Hcount & _);
    try (vm_compute; congruence).
  { vm_compute. lia. }
  exists d', msgs. split; [exact Hrun|]. rewrite Hcount. reflexivity.
Defined.

(** X17.  Atomic accesses do not race with each other: an atomic access over
    cells that are all open to atomics sends nothing, whoever does it, and
    leaves all the cells of the region open to atomics. *)
Theorem atomics_on_open_cells_not_reported
    (d : RaceDetector) (k : KernelInvocation) (memory : Memory) (w : WorkItem)
    (op : AtomicOp) (address size : N) (cells : list State) :
  m_kernelInvocation d = Some k →
  nonzero3 (getLocalSize k) = true →
  m_state d !! KEY memory address = Some cells →
  (N.to_nat (EXTRACT_OFFSET address) + N.to_nat size ≤ length cells)%nat →
  Forall (λ state, canAtomic state = true) cells →
  ∃ d' cells',
    memoryAtomic d memory w op address size = Some (d', [])
    ∧ m_state d' !! KEY memory address = Some cells'
    ∧ Forall (λ state, canAtomic state = true) cells'.
Proof.
  intros Hk Hnz Hreg Hin Hopen.
  destruct (memoryAtomic_outcome d k memory w op address size cells Hk Hnz Hreg Hin)
    as (cells' & msgs & Hrun & Hlen & Hframe & Hupd & Hcount & _).
  assert (Hnil : msgs = []).
  { apply length_zero_iff_nil. rewrite Hcount.
    apply length_zero_iff_nil, filter_none.
    apply Forall_take, Forall_drop. eapply Forall_impl; [exact Hopen|].
    intros state Hs. unfold atomicConflict. rewrite Hs. discriminate. }
  subst msgs. eexists _, cells'. split; [exact Hrun|].
  split; [simpl; by rewrite lookup_insert_eq|].
  rewrite Forall_lookup in Hopen.
  apply Forall_lookup. intros i state' Hcell'.
  destruct (decide (N.to_nat (EXTRACT_OFFSET address) ≤ i
                    < N.to_nat (EXTRACT_OFFSET address) + N.to_nat size)%nat)
    as [Hi|Hout].
  - destruct (range_index _ _ _ Hi) as (j & Hj & ->).
    destruct (lookup_lt_is_Some_2 cells (N.to_nat (EXTRACT_OFFSET address + j)))
      as [state Hcell]; [lia|].
    rewrite (Hupd j state Hj Hcell) in Hcell'. injection Hcell' as <-.
    simpl. by apply (Hopen _ _ Hcell).
  - rewrite Hframe in Hcell' by lia. by apply (Hopen i).
Qed.

Lemma atomics_on_open_cells_not_reported_witness :
  ∃ d' cells',
    memoryAtomic (Scenario.started false) (Scenario.globalMemory 0) (Scenario.WI 0)
      AtomicAdd (Scenario.region + 12) 4 = Some (d', [])
    ∧ m_state d' !! (1, 1) = Some cells'
    ∧ Forall (λ state, canAtomic state = true) cells'.
Proof.
  apply (atomics_on_open_cells_not_reported (Scenario.started false)
           Scenario.kernel (Scenario.globalMemory 0) (Scenario.WI 0) AtomicAdd
           (Scenario.region + 12) 4 (replicate 16 State_ctor));
    try (vm_compute; congruence).
  - vm_compute. lia.
  - apply Forall_replicate. reflexivity.
Defined.

(** X18.  The test of [memoryAtomic] looks at the recorded work-item only.  A
    store made by a group as a whole leaves no work-item in a cell that had
    none, so that the atomic access of any work-item to that byte is then
    reported, the work-items of the storing group included. *)
Theorem atomic_after_group_store_reported
    (d : RaceDetector) (k : KernelInvocation) (memory : Memory) (g : WorkGroup)
    (w : WorkItem) (op : AtomicOp) (address v : N)
    (cells : list State) (state : State) :
  m_kernelInvocation d = Some k →
  nonzero3 (getLocalSize k) = true →
  getAddressSpace memory ≠ AddrSpacePrivate →
  m_state d !! KEY memory address = Some cells →
  cells !! N.to_nat (EXTRACT_OFFSET address) = Some state →
  canWrite state = true →
  workItem state = MINUS_ONE →
  getGlobalIndex w ≠ MINUS_ONE →
  ∃ d1 d2 msg,
    memoryStore_WG d memory g address 1 [v] = Some (d1, [])
    ∧ memoryAtomic d1 memory w op address 1 = Some (d2, [msg])
    ∧ msg_type msg = ReadWriteRace.
Proof.
  intros Hk Hnz Hsp Hreg Hcell Hw Hwi Hidx.
  assert (Hlt : (N.to_nat (EXTRACT_OFFSET address) < length cells)%nat)
    by (apply lookup_lt_is_Some; eauto).
  destruct (registerLoadStore_single_outcome d k memory None (Some g) address
              (Some [v]) cells state _ Hk Hnz Hsp Hreg Hcell
              (conflict_store d memory address v state))
    as [second1 H1].
  rewrite Hw in H1. simpl in H1.
  set (state1 := updateState None (Some g) (Some [v]) state) in H1.
  set (d1 := setCell d _ cells _ state1) in H1.
  assert (Hreg1 : m_state d1 !! KEY memory address
                  = Some (<[N.to_nat (EXTRACT_OFFSET address) := state1]> cells))
    by apply setCell_region.
  assert (Hcell1 : <[N.to_nat (EXTRACT_OFFSET address) := state1]> cells
                   !! N.to_nat (EXTRACT_OFFSET address) = Some state1)
    by (by apply list_lookup_insert_eq).
  destruct (memoryAtomic_byte_outcome d1 k memory w address state1 Hk Hnz)
    as (new & Hbyte & Hlen & Hall).
  assert (Hconf : atomicConflict w state1 = true).
  { unfold atomicConflict, state1. simpl. rewrite Hwi.
    by apply negb_true_iff, N.eqb_neq. }
  rewrite Hconf in Hlen.
  destruct new as [|msg [|? ?]]; try discriminate.
  apply Forall_singleton in Hall as [Htype _].
  exists d1, (setCell d1 (KEY memory address)
                (<[N.to_nat (EXTRACT_OFFSET address) := state1]> cells)
                (N.to_nat (EXTRACT_OFFSET address)) (atomicState w state1)), msg.
  split; [exact H1|]. split; [|exact Htype].
  rewrite (memoryAtomic_single d1 memory address _ state1 Hreg1 Hcell1).
  by rewrite Hbyte.
Qed.

Lemma atomic_after_group_store_reported_witness :
  ∃ d1 d2 msg,
    memoryStore_WG (Scenario.started false) (Scenario.globalMemory 0) (Scenario.WG 0)
      Scenario.region 1 [7] = Some (d1, [])
    ∧ memoryAtomic d1 (Scenario.globalMemory 7) (Scenario.WI 1) AtomicAdd
        Scenario.region 1 = Some (d2, [msg])
    ∧ msg_type msg = ReadWriteRace.
Proof.
  destruct (atomic_after_group_store_reported (Scenario.started false)
              Scenario.kernel (Scenario.globalMemory 0) (Scenario.WG 0)
              (Scenario.WI 1) AtomicAdd Scenario.region 7
              (replicate 16 State_ctor) State_ctor)
    as (d1 & d2 & msg & H1 & H2 & H3);
    try (vm_compute; congruence).
  exists d1, d2, msg. done.
Defined.

(** X19.  [memoryAtomic] does not look for a current kernel.  Outside of a
    kernel, where loads and stores are dropped, an atomic access to a byte
    that it does not conflict with still marks the cell. *)
Theorem atomic_without_kernel_recorded
    (d : RaceDetector) (memory : Memory) (w : WorkItem) (op : AtomicOp)
    (address : N) (cells : list State) (state : State) :
  m_kernelInvocation d = None →
  m_state d !! KEY memory address = Some cells →
  cells !! N.to_nat (EXTRACT_OFFSET address) = Some state →
  atomicConflict w state = false →
  ∃ d',
    memoryAtomic d memory w op address 1 = Some (d', [])
    ∧ cellAt d' memory address = Some (atomicState w state)
    ∧ memoryLoad_WI d memory w address 1 = Some (d, []).
Proof.
  intros Hk Hreg Hcell Hconf.
  assert (Hlt : (N.to_nat (EXTRACT_OFFSET address) < length cells)%nat)
    by (apply lookup_lt_is_Some; eauto).
  rewrite (memoryAtomic_single d memory address cells state Hreg Hcell).
  unfold memoryAtomic_byte. unfold atomicConflict in Hconf. rewrite Hconf. simpl.
  eexists. split; [reflexivity|]. split.
  - by apply setCell_lookup.
  - unfold memoryLoad_WI, registerLoadStore. by rewrite Hk.
Qed.

Lemma atomic_without_kernel_recorded_witness :
  ∃ d',
    memoryAtomic (kernelEnd (Scenario.started false) (Some Scenario.kernel))
      (Scenario.globalMemory 0) (Scenario.WI 0) AtomicAdd Scenario.region 1
    = Some (d', [])
    ∧ cellAt d' (Scenario.globalMemory 0) Scenario.region
      = Some (atomicState (Scenario.WI 0) State_ctor).
Proof.
  destruct (atomic_without_kernel_recorded
              (kernelEnd (Scenario.started false) (Some Scenario.kernel))
              (Scenario.globalMemory 0) (Scenario.WI 0) AtomicAdd Scenario.region
              (replicate 16 State_ctor) State_ctor)
    as (d' & Hrun & Hcell & _);
    try (vm_compute; congruence).
  by exists d'.
Defined.

(** ** The coordinates in a message *)

Lemma nonzero3_components s :
  nonzero3 s = true → Size3.x s ≠ 0 ∧ Size3.y s ≠ 0 ∧ Size3.z s ≠ 0.
Proof.
  unfold nonzero3. rewrite !andb_true_iff, !negb_true_iff, !N.eqb_neq. tauto.
Qed.

(** X20.  When [logRace] names a work-item as second entity, the local and
    the group coordinates it prints split each global coordinate over the
    local size: global = group * local size + local, with local below the
    local size. *)
Theorem logRace_work_item_coordinates
    (d : RaceDetector) (k : KernelInvocation) (type : DataRaceType)
    (addrSpace : AddressSpace) (address lastWorkGroup lastWorkItem : N)
    (lastInstruction : Instruction) :
  m_kernelInvocation d = Some k →
  nonzero3 (getLocalSize k) = true →
  lastWorkItem ≠ MINUS_ONE →
  ∃ msg global local group,
    logRace d type addrSpace address lastWorkGroup lastWorkItem lastInstruction
    = Some msg
    ∧ msg_second msg = EntityWorkItem global local group
    ∧ global = Size3.of_linear lastWorkItem (getGlobalSize k)
    ∧ Size3.x global = Size3.x group * Size3.x (getLocalSize k) + Size3.x local
    ∧ Size3.y global = Size3.y group * Size3.y (getLocalSize k) + Size3.y local
    ∧ Size3.z global = Size3.z group * Size3.z (getLocalSize k) + Size3.z local
    ∧ Size3.x local < Size3.x (getLocalSize k)
    ∧ Size3.y local < Size3.y (getLocalSize k)
    ∧ Size3.z local < Size3.z (getLocalSize k).
Proof.
  intros Hk Hnz Hwi. unfold logRace. rewrite Hk. simpl. rewrite Hnz.
  apply N.eqb_neq in Hwi. rewrite Hwi. simpl.
  apply nonzero3_components in Hnz as (Hx & Hy & Hz).
  eexists _, _, _, _. split; [reflexivity|]. split; [reflexivity|].
  split; [reflexivity|]. simpl.
  repeat split; try (by apply N.mod_lt).
  all: match goal with
       | |- ?a = ?a / ?b * ?b + _ => rewrite (N.mul_comm (a / b) b); apply N.div_mod'
       end.
Qed.

Lemma logRace_work_item_coordinates_witness :
  ∃ msg,
    logRace (Scenario.started false) WriteWriteRace AddrSpaceGlobal Scenario.region
      MINUS_ONE 3 None = Some msg
    ∧ msg_second msg
      = EntityWorkItem (Size3.mk 3 0 0) (Size3.mk 1 0 0) (Size3.mk 1 0 0).
Proof.
  destruct (logRace_work_item_coordinates (Scenario.started false) Scenario.kernel
              WriteWriteRace AddrSpaceGlobal Scenario.region MINUS_ONE 3 None)
    as (msg & global & local & group & Hrun & _);
    try (vm_compute; congruence).
  exists msg. split; [exact Hrun|].
  vm_compute in Hrun. injection Hrun as <-. reflexivity.
Defined.
